(** * transport/amqp: the subscriber pipeline

    A shallow embedding of [transport/amqp/subscriber.go]: the per-delivery
    handler [ServeDelivery], the reply publisher [publishResponse] and the
    four error encoders, together with the properties of the pipeline.

    Go code that calls into user supplied functions is modelled as a program
    over an abstract world [W] (the state of the broker and of the
    application) that also produces the list of calls it made. *)

From Stdlib Require Import String List ZArith Bool Lia.
Import ListNotations.
Open Scope string_scope.
Open Scope list_scope.

(** ** Envelope types of the broker client (github.com/streadway/amqp) *)

Definition bytes := string.

(** [amqp.Table], restricted to string values. *)
Definition Table := list (string * string).

(** Go's [error]: a value observed through its [Error()] message. *)
Inductive error : Type := errorString (msg : string).

Definition err_Error (err : error) : string :=
  match err with errorString msg => msg end.

Module Publishing.
(** [amqp.Publishing] *)
Record t := mk {
  Headers : Table;
  ContentType : string;
  ContentEncoding : string;
  DeliveryMode : Z;
  Priority : Z;
  CorrelationId : string;
  ReplyTo : string;
  Expiration : string;
  MessageId : string;
  Timestamp : Z;
  Type_ : string;
  UserId : string;
  AppId : string;
  Body : bytes
}.

(** The zero value [amqp.Publishing{}]. *)
Definition zero : t := mk [] "" "" 0 0 "" "" "" "" 0 "" "" "" "".

(** [pub.CorrelationId = c] *)
Definition setCorrelationId (c : string) (p : t) : t :=
  mk (Headers p) (ContentType p) (ContentEncoding p) (DeliveryMode p)
     (Priority p) c (ReplyTo p) (Expiration p) (MessageId p) (Timestamp p)
     (Type_ p) (UserId p) (AppId p) (Body p).

(** [pub.Body = b] *)
Definition setBody (b : bytes) (p : t) : t :=
  mk (Headers p) (ContentType p) (ContentEncoding p) (DeliveryMode p)
     (Priority p) (CorrelationId p) (ReplyTo p) (Expiration p) (MessageId p)
     (Timestamp p) (Type_ p) (UserId p) (AppId p) b.
End Publishing.

Module Delivery.
(** [amqp.Delivery]; the acknowledger is addressed by [DeliveryTag]. *)
Record t := mk {
  Headers : Table;
  ContentType : string;
  CorrelationId : string;
  ReplyTo : string;
  MessageId : string;
  ConsumerTag : string;
  DeliveryTag : Z;
  Redelivered : bool;
  Exchange : string;
  RoutingKey : string;
  Body : bytes
}.
End Delivery.

(** ** Processing context *)

(** Modelled from the spec: the keys [ContextKeyExchange],
    [ContextKeyPublishKey] and [ContextKeyNackSleepDuration] of the
    [context.Context] are declared outside [subscriber.go]; the context is
    "per-invocation key-value propagation carrying: reply-exchange override,
    reply-key override, and a backoff duration".  Durations are nanoseconds,
    as in [time.Duration]. *)
Record Context := mkContext {
  ctxPublishExchange : option string;
  ctxPublishKey : option string;
  ctxNackSleepDuration : option Z
}.

(** [context.Background()] *)
Definition Background : Context := mkContext None None None.

(** Modelled from the spec: [getPublishExchange] is declared outside
    [subscriber.go]; "exchange = Processing-Context override (default empty
    string meaning default exchange)". *)
Definition getPublishExchange (ctx : Context) : string :=
  match ctxPublishExchange ctx with
  | Some exchange => exchange
  | None => ""
  end.

(** Modelled from the spec: [getPublishKey] is declared outside
    [subscriber.go]; it reads the reply-key override, the empty string when
    there is none. *)
Definition getPublishKey (ctx : Context) : string :=
  match ctxPublishKey ctx with
  | Some publishKey => publishKey
  | None => ""
  end.

(** Modelled from the spec: [getNackSleepDuration] is declared outside
    [subscriber.go]; "a duration taken from the Processing Context's backoff
    override (default: a fixed fallback if unset)".  The fallback is the
    parameter [fallback]. *)
Definition getNackSleepDuration (fallback : Z) (ctx : Context) : Z :=
  match ctxNackSleepDuration ctx with
  | Some duration => duration
  | None => fallback
  end.

(** ** JSON values handed to [encoding/json] *)

Inductive JSON : Type :=
| JString (s : string)
| JObject (members : Members)
with Members : Type :=
| MNil
| MCons (key : string) (v : JSON) (rest : Members).

(** [DefaultErrorResponse] *)
Record DefaultErrorResponse := mkDefaultErrorResponse { Error : string }.

(** The struct tag [json:"err"] names the only member. *)
Definition DefaultErrorResponse_json (r : DefaultErrorResponse) : JSON :=
  JObject (MCons "err" (JString (Error r)) MNil).

(** ** Calls that leave the process *)

Inductive Effect : Type :=
| EPublish (exchange key : string) (mandatory immediate : bool)
           (msg : Publishing.t) (res : option error)
| EAck (tag : Z) (multiple : bool)
| ENack (tag : Z) (multiple requeue : bool)
| ESleep (d : Z).

Definition isPublish (ef : Effect) : bool :=
  match ef with EPublish _ _ _ _ _ _ => true | _ => false end.

Definition isAck (ef : Effect) : bool :=
  match ef with EAck _ _ => true | _ => false end.

Definition isNack (ef : Effect) : bool :=
  match ef with ENack _ _ _ => true | _ => false end.

(** ** Calls made by the handler *)

(** The four fallible stages of the pipeline. *)
Inductive Stage : Type := SDecode | SInvoke | SEncode | SPublish.

(** The call sites of [ServeDelivery], hooks and finalizers by position in
    their list. *)
Inductive Label : Type :=
| LBefore (i : nat)
| LDecode
| LInvoke
| LAfter (i : nat)
| LEncode
| LPublish
| LLog
| LErrorEncoder
| LFinalizer (i : nat)
| LCancel.

Section Subscriber.

(** State of everything outside the pipeline. *)
Variable W : Type.
(** Decoded request and endpoint response: opaque domain objects. *)
Variables Request Response : Type.
(** [json.Marshal], an external encoder. *)
Variable json_Marshal : JSON -> bytes + error.
(** The fixed backoff used when the context carries none. *)
Variable nackSleepFallback : Z.

(** *** Programs: world passing with a log of calls *)

Definition Prog (E A : Type) : Type := W -> A * W * list E.

Definition ret {E A} (a : A) : Prog E A := fun w => (a, w, []).

Definition bind {E A B} (m : Prog E A) (k : A -> Prog E B) : Prog E B :=
  fun w =>
    let '(a, w1, t1) := m w in
    let '(b, w2, t2) := k a w1 in
    (b, w2, t1 ++ t2).

Definition emit {E} (ev : E) : Prog E unit := fun w => (tt, w, [ev]).

Definition value {E A} (r : A * W * list E) : A := fst (fst r).
Definition world {E A} (r : A * W * list E) : W := snd (fst r).
Definition trace {E A} (r : A * W * list E) : list E := snd r.

Notation "x <- m ;; k" := (bind m (fun x => k))
  (at level 61, m at next level, right associativity).
Notation "' pat <- m ;; k" := (bind m (fun x => match x with pat => k end))
  (at level 61, pat pattern, m at next level, right associativity).
Notation "m ;; k" := (bind m (fun _ => k))
  (at level 61, right associativity).

(** What user supplied code does: it changes the world and may call the
    broker client. *)
Definition U (A : Type) : Type := Prog Effect A.

(** *** Channel *)

(** The [Channel] interface.  [Consume] is not used by the handler. *)
Record Channel := mkChannel {
  Publish : string -> string -> bool -> bool -> Publishing.t ->
            W -> option error * W;
  Consume : string -> string -> bool -> bool -> bool -> bool -> Table ->
            W -> (list Delivery.t + error) * W
}.

(** [ch.Publish(exchange, key, mandatory, immediate, msg)] *)
Definition ch_Publish (ch : Channel) (exchange key : string)
    (mandatory immediate : bool) (msg : Publishing.t) : U (option error) :=
  fun w =>
    let '(res, w') := Publish ch exchange key mandatory immediate msg w in
    (res, w', [EPublish exchange key mandatory immediate msg res]).

(** [deliv.Ack(multiple)]; the handler ignores the result. *)
Definition deliv_Ack (deliv : Delivery.t) (multiple : bool) : U unit :=
  emit (EAck (Delivery.DeliveryTag deliv) multiple).

(** [deliv.Nack(multiple, requeue)]; the handler ignores the result. *)
Definition deliv_Nack (deliv : Delivery.t) (multiple requeue : bool)
    : U unit :=
  emit (ENack (Delivery.DeliveryTag deliv) multiple requeue).

(** [time.Sleep(d)] *)
Definition time_Sleep (d : Z) : U unit := emit (ESleep d).

(** *** publishResponse *)

Definition publishResponse (ctx : Context) (deliv : Delivery.t)
    (ch : Channel) (pub : Publishing.t) : U (Publishing.t * option error) :=
  let pub :=
    if Publishing.CorrelationId pub =? ""
    then Publishing.setCorrelationId (Delivery.CorrelationId deliv) pub
    else pub in
  let replyExchange := getPublishExchange ctx in
  let replyTo := getPublishKey ctx in
  let replyTo := if replyTo =? "" then Delivery.ReplyTo deliv else replyTo in
  res <- ch_Publish ch replyExchange replyTo false false pub ;;
  ret (pub, res).

(** *** Error encoders *)

(** An error encoder receives [*amqp.Publishing]; the publication it leaves
    behind is its result. *)
Definition ErrorEncoder : Type :=
  Context -> error -> Delivery.t -> Channel -> Publishing.t ->
  U Publishing.t.

Definition DefaultErrorEncoder : ErrorEncoder :=
  fun ctx err deliv ch pub => ret pub.

Definition SingleNackRequeueErrorEncoder : ErrorEncoder :=
  fun ctx err deliv ch pub =>
    deliv_Nack deliv false true ;;
    let duration := getNackSleepDuration nackSleepFallback ctx in
    time_Sleep duration ;;
    ret pub.

Definition ReplyErrorEncoder : ErrorEncoder :=
  fun ctx err deliv ch pub =>
    let pub :=
      if Publishing.CorrelationId pub =? ""
      then Publishing.setCorrelationId (Delivery.CorrelationId deliv) pub
      else pub in
    let replyExchange := getPublishExchange ctx in
    let replyTo := getPublishKey ctx in
    let replyTo :=
      if replyTo =? "" then Delivery.ReplyTo deliv else replyTo in
    let response := mkDefaultErrorResponse (err_Error err) in
    match json_Marshal (DefaultErrorResponse_json response) with
    | inr _ => ret pub
    | inl b =>
        let pub := Publishing.setBody b pub in
        _ <- ch_Publish ch replyExchange replyTo false false pub ;;
        ret pub
    end.

Definition ReplyAndAckErrorEncoder : ErrorEncoder :=
  fun ctx err deliv ch pub =>
    pub <- ReplyErrorEncoder ctx err deliv ch pub ;;
    deliv_Ack deliv false ;;
    ret pub.

(** *** The subscriber *)

(** Modelled from the spec: [RequestFunc], the before hook, is declared
    outside [subscriber.go]; "(context, *Publication, Delivery) -> context". *)
Definition RequestFunc : Type :=
  Context -> Publishing.t -> Delivery.t -> U (Context * Publishing.t).

(** Modelled from the spec: [SubscriberResponseFunc], the after hook, is
    declared outside [subscriber.go]; "(context, Delivery, Channel,
    *Publication) -> context". *)
Definition SubscriberResponseFunc : Type :=
  Context -> Delivery.t -> Channel -> Publishing.t ->
  U (Context * Publishing.t).

(** Modelled from the spec: [DecodeRequestFunc] is declared outside
    [subscriber.go]; "(context, Delivery) -> (Request, error)". *)
Definition DecodeRequestFunc : Type :=
  Context -> Delivery.t -> U (Request + error).

(** Modelled from the spec: [EncodeResponseFunc] is declared outside
    [subscriber.go]; "(context, *Publication, Response) -> error". *)
Definition EncodeResponseFunc : Type :=
  Context -> Publishing.t -> Response -> U (Publishing.t * option error).

(** [endpoint.Endpoint]: "(context, Request) -> (Response, error)". *)
Definition Endpoint : Type := Context -> Request -> U (Response + error).

Definition SubscriberFinalizerFunc : Type :=
  Context -> option error -> U unit.

(** [log.Logger], used as [Log("err", err)]. *)
Definition Logger : Type := string -> error -> U unit.

(** [log.NewNopLogger()] *)
Definition NopLogger : Logger := fun key err => ret tt.

Record Subscriber := mkSubscriber {
  e : Endpoint;
  dec : DecodeRequestFunc;
  enc : EncodeResponseFunc;
  before : list RequestFunc;
  after : list SubscriberResponseFunc;
  finalizer : list SubscriberFinalizerFunc;
  errorEncoder : ErrorEncoder;
  logger : Logger
}.

Definition SubscriberOption : Type := Subscriber -> Subscriber.

Definition NewSubscriber (e : Endpoint) (dec : DecodeRequestFunc)
    (enc : EncodeResponseFunc) (options : list SubscriberOption)
    : Subscriber :=
  let s := mkSubscriber e dec enc [] [] [] DefaultErrorEncoder NopLogger in
  fold_left (fun s option => option s) options s.

Definition SubscriberBefore (fs : list RequestFunc) : SubscriberOption :=
  fun s => mkSubscriber (e s) (dec s) (enc s) (before s ++ fs) (after s)
                        (finalizer s) (errorEncoder s) (logger s).

Definition SubscriberAfter (fs : list SubscriberResponseFunc)
    : SubscriberOption :=
  fun s => mkSubscriber (e s) (dec s) (enc s) (before s) (after s ++ fs)
                        (finalizer s) (errorEncoder s) (logger s).

Definition SubscriberErrorEncoder (ee : ErrorEncoder) : SubscriberOption :=
  fun s => mkSubscriber (e s) (dec s) (enc s) (before s) (after s)
                        (finalizer s) ee (logger s).

Definition SubscriberErrorLogger (l : Logger) : SubscriberOption :=
  fun s => mkSubscriber (e s) (dec s) (enc s) (before s) (after s)
                        (finalizer s) (errorEncoder s) l.

Definition ServerFinalizer (fs : list SubscriberFinalizerFunc)
    : SubscriberOption :=
  fun s => mkSubscriber (e s) (dec s) (enc s) (before s) (after s)
                        (finalizer s ++ fs) (errorEncoder s) (logger s).

(** *** The log of one delivery *)

(** What [ServeDelivery] does, in order: each call it makes with the
    arguments it passes, the outcome of each stage with the context and
    publication current when the stage returns, and the broker calls made
    inside a call site ([Eff]). *)
Inductive Event : Type :=
| Before (i : nat) (ctx : Context) (pub : Publishing.t) (deliv : Delivery.t)
| Decode (ctx : Context) (deliv : Delivery.t)
| Invoke (ctx : Context) (request : Request)
| After (i : nat) (ctx : Context) (deliv : Delivery.t) (ch : Channel)
        (pub : Publishing.t)
| Encode (ctx : Context) (pub : Publishing.t) (response : Response)
| PublishResponse (ctx : Context) (deliv : Delivery.t) (ch : Channel)
                  (pub : Publishing.t)
| Returned (st : Stage) (ctx : Context) (pub : Publishing.t)
           (err : option error)
| Log (key : string) (err : error)
| ErrorEnc (ctx : Context) (err : error) (deliv : Delivery.t) (ch : Channel)
           (pub : Publishing.t)
| Finalize (i : nat) (ctx : Context) (err : option error)
| Cancel
| Eff (site : Label) (ef : Effect).

(** Runs user code at a call site. *)
Definition lift {A} (site : Label) (m : U A) : Prog Event A :=
  fun w => let '(a, w', t) := m w in (a, w', map (Eff site) t).

Definition errOf {A} (r : A + error) : option error :=
  match r with inl _ => None | inr err => Some err end.

(** [for _, f := range s.before { ctx = f(ctx, &pub, deliv) }] *)
Fixpoint runBefore (fs : list RequestFunc) (i : nat) (ctx : Context)
    (pub : Publishing.t) (deliv : Delivery.t)
    : Prog Event (Context * Publishing.t) :=
  match fs with
  | [] => ret (ctx, pub)
  | f :: fs' =>
      emit (Before i ctx pub deliv) ;;
      '(ctx', pub') <- lift (LBefore i) (f ctx pub deliv) ;;
      runBefore fs' (S i) ctx' pub' deliv
  end.

(** [for _, f := range s.after { ctx = f(ctx, deliv, ch, &pub) }] *)
Fixpoint runAfter (fs : list SubscriberResponseFunc) (i : nat)
    (ctx : Context) (deliv : Delivery.t) (ch : Channel) (pub : Publishing.t)
    : Prog Event (Context * Publishing.t) :=
  match fs with
  | [] => ret (ctx, pub)
  | f :: fs' =>
      emit (After i ctx deliv ch pub) ;;
      '(ctx', pub') <- lift (LAfter i) (f ctx deliv ch pub) ;;
      runAfter fs' (S i) ctx' deliv ch pub'
  end.

(** [for _, f := range s.finalizer { f(ctx, err) }] *)
Fixpoint runFinalizers (fs : list SubscriberFinalizerFunc) (i : nat)
    (ctx : Context) (err : option error) : Prog Event unit :=
  match fs with
  | [] => ret tt
  | f :: fs' =>
      emit (Finalize i ctx err) ;;
      lift (LFinalizer i) (f ctx err) ;;
      runFinalizers fs' (S i) ctx err
  end.

(** The three statements of every failure branch; [err] stays in the
    variable the deferred finalizers read. *)
Definition failed (s : Subscriber) (ch : Channel) (deliv : Delivery.t)
    (ctx : Context) (pub : Publishing.t) (err : error)
    : Prog Event (Context * option error) :=
  emit (Log "err" err) ;;
  lift LLog (logger s "err" err) ;;
  emit (ErrorEnc ctx err deliv ch pub) ;;
  _ <- lift LErrorEncoder (errorEncoder s ctx err deliv ch pub) ;;
  ret (ctx, Some err).

(** The body of the handler, lines 100 to 134; its result is the value of
    [ctx] and [err] when the body returns. *)
Definition serve (s : Subscriber) (ch : Channel) (deliv : Delivery.t)
    (ctx : Context) : Prog Event (Context * option error) :=
  let pub := Publishing.zero in
  '(ctx, pub) <- runBefore (before s) 0 ctx pub deliv ;;
  emit (Decode ctx deliv) ;;
  r <- lift LDecode (dec s ctx deliv) ;;
  emit (Returned SDecode ctx pub (errOf r)) ;;
  match r with
  | inr err => failed s ch deliv ctx pub err
  | inl request =>
      emit (Invoke ctx request) ;;
      r <- lift LInvoke (e s ctx request) ;;
      emit (Returned SInvoke ctx pub (errOf r)) ;;
      match r with
      | inr err => failed s ch deliv ctx pub err
      | inl response =>
          '(ctx, pub) <- runAfter (after s) 0 ctx deliv ch pub ;;
          emit (Encode ctx pub response) ;;
          '(pub, err) <- lift LEncode (enc s ctx pub response) ;;
          emit (Returned SEncode ctx pub err) ;;
          match err with
          | Some err => failed s ch deliv ctx pub err
          | None =>
              emit (PublishResponse ctx deliv ch pub) ;;
              '(pub, err) <-
                lift LPublish (publishResponse ctx deliv ch pub) ;;
              emit (Returned SPublish ctx pub err) ;;
              match err with
              | Some err => failed s ch deliv ctx pub err
              | None => ret (ctx, None)
              end
          end
      end
  end.

(** [ServeDelivery(ch)(deliv)]: the body, then the deferred calls in
    reverse order of registration: the finalizers (registered only when
    there is one), then [cancel]. *)
Definition ServeDelivery (s : Subscriber) (ch : Channel)
    (deliv : Delivery.t) : Prog Event unit :=
  let ctx := Background in
  '(ctx, err) <- serve s ch deliv ctx ;;
  (if Nat.ltb 0 (length (finalizer s))
   then runFinalizers (finalizer s) 0 ctx err
   else ret tt) ;;
  emit Cancel.

(** *** Reading a log *)

Definition label (ev : Event) : option Label :=
  match ev with
  | Before i _ _ _ => Some (LBefore i)
  | Decode _ _ => Some LDecode
  | Invoke _ _ => Some LInvoke
  | After i _ _ _ _ => Some (LAfter i)
  | Encode _ _ _ => Some LEncode
  | PublishResponse _ _ _ _ => Some LPublish
  | Returned _ _ _ _ => None
  | Log _ _ => Some LLog
  | ErrorEnc _ _ _ _ _ => Some LErrorEncoder
  | Finalize i _ _ => Some (LFinalizer i)
  | Cancel => Some LCancel
  | Eff _ _ => None
  end.

(** The call sites reached, in order. *)
Fixpoint labels (tr : list Event) : list Label :=
  match tr with
  | [] => []
  | ev :: tr' =>
      match label ev with
      | Some l => l :: labels tr'
      | None => labels tr'
      end
  end.

Definition isLog (ev : Event) : bool :=
  match ev with Log _ _ => true | _ => false end.

Definition isErrorEnc (ev : Event) : bool :=
  match ev with ErrorEnc _ _ _ _ _ => true | _ => false end.

Definition isFinalize (ev : Event) : bool :=
  match ev with Finalize _ _ _ => true | _ => false end.

Definition isReturned (ev : Event) : bool :=
  match ev with Returned _ _ _ _ => true | _ => false end.

End Subscriber.

Arguments ret {W E A} a w.
Arguments bind {W E A B} m k w.
Arguments emit {W E} ev w.
Arguments value {W E A} r.
Arguments world {W E A} r.
Arguments trace {W E A} r.
Arguments Publish {W} c _ _ _ _ _ _.
Arguments Consume {W} c _ _ _ _ _ _ _ _.
Arguments ch_Publish {W} ch exchange key mandatory immediate msg w.
Arguments deliv_Ack {W} deliv multiple w.
Arguments deliv_Nack {W} deliv multiple requeue w.
Arguments time_Sleep {W} d w.
Arguments publishResponse {W} ctx deliv ch pub w.
Arguments DefaultErrorEncoder {W} ctx err deliv ch pub w.
Arguments SingleNackRequeueErrorEncoder {W} nackSleepFallback
  ctx err deliv ch pub w.
Arguments ReplyErrorEncoder {W} json_Marshal ctx err deliv ch pub w.
Arguments ReplyAndAckErrorEncoder {W} json_Marshal ctx err deliv ch pub w.
Arguments NopLogger {W} key err w.
Arguments e {W Request Response} s _ _ _.
Arguments dec {W Request Response} s _ _ _.
Arguments enc {W Request Response} s _ _ _ _.
Arguments before {W Request Response} s.
Arguments after {W Request Response} s.
Arguments finalizer {W Request Response} s.
Arguments errorEncoder {W Request Response} s _ _ _ _ _ _.
Arguments logger {W Request Response} s _ _ _.
Arguments NewSubscriber {W Request Response} e dec enc options.
Arguments SubscriberBefore {W Request Response} fs s.
Arguments SubscriberAfter {W Request Response} fs s.
Arguments SubscriberErrorEncoder {W Request Response} ee s.
Arguments SubscriberErrorLogger {W Request Response} l s.
Arguments ServerFinalizer {W Request Response} fs s.
Arguments Before {W Request Response} i ctx pub deliv.
Arguments Decode {W Request Response} ctx deliv.
Arguments Invoke {W Request Response} ctx request.
Arguments After {W Request Response} i ctx deliv ch pub.
Arguments Encode {W Request Response} ctx pub response.
Arguments PublishResponse {W Request Response} ctx deliv ch pub.
Arguments Returned {W Request Response} st ctx pub err.
Arguments Log {W Request Response} key err.
Arguments ErrorEnc {W Request Response} ctx err deliv ch pub.
Arguments Finalize {W Request Response} i ctx err.
Arguments Cancel {W Request Response}.
Arguments Eff {W Request Response} site ef.
Arguments lift {W Request Response A} site m w.
Arguments errOf {A} r.
Arguments runBefore {W Request Response} fs i ctx pub deliv w.
Arguments runAfter {W Request Response} fs i ctx deliv ch pub w.
Arguments runFinalizers {W Request Response} fs i ctx err w.
Arguments failed {W Request Response} s ch deliv ctx pub err w.
Arguments serve {W Request Response} s ch deliv ctx w.
Arguments ServeDelivery {W Request Response} s ch deliv w.
Arguments label {W Request Response} ev.
Arguments labels {W Request Response} tr.
Arguments isLog {W Request Response} ev.
Arguments isErrorEnc {W Request Response} ev.
Arguments isFinalize {W Request Response} ev.
Arguments isReturned {W Request Response} ev.

(** ** The reply target as the specification words it *)

(** "exchange = Processing-Context override (default empty string meaning
    default exchange)" *)
Definition spec_replyExchange (ctx : Context) : string :=
  match ctxPublishExchange ctx with
  | Some exchange => exchange
  | None => EmptyString
  end.

(** "key = Processing-Context override if set, else the delivery's reply-to
    field" *)
Definition spec_replyKey (ctx : Context) (deliv : Delivery.t) : string :=
  match ctxPublishKey ctx with
  | Some key => key
  | None => Delivery.ReplyTo deliv
  end.

(** What the handler does with the key: an override that is the empty string
    counts as no override. *)
Definition replyKey (ctx : Context) (deliv : Delivery.t) : string :=
  match ctxPublishKey ctx with
  | Some key => if key =? EmptyString then Delivery.ReplyTo deliv else key
  | None => Delivery.ReplyTo deliv
  end.

(** [if pub.CorrelationId == "" { pub.CorrelationId = deliv.CorrelationId }] *)
Definition withCorrelationId (deliv : Delivery.t) (pub : Publishing.t)
    : Publishing.t :=
  if Publishing.CorrelationId pub =? EmptyString
  then Publishing.setCorrelationId (Delivery.CorrelationId deliv) pub
  else pub.

(** ** A broker, a subscriber and deliveries to run the handler on *)

Module Example.

(** The world is the list of messages the broker accepted, oldest first. *)
Definition World : Type := list Publishing.t.

Definition dq : string := String (Ascii.ascii_of_nat 34) EmptyString.

(** A compact encoder for the two JSON forms, escaping the quote and the
    backslash. *)
Fixpoint escape (s : string) : string :=
  match s with
  | EmptyString => EmptyString
  | String c s' =>
      if orb (Nat.eqb (Ascii.nat_of_ascii c) 34)
             (Nat.eqb (Ascii.nat_of_ascii c) 92)
      then String (Ascii.ascii_of_nat 92) (String c (escape s'))
      else String c (escape s')
  end.

Definition quote (s : string) : string := (dq ++ escape s ++ dq)%string.

Fixpoint render (j : JSON) : string :=
  match j with
  | JString s => quote s
  | JObject ms => ("{" ++ renderMembers ms ++ "}")%string
  end
with renderMembers (ms : Members) : string :=
  match ms with
  | MNil => EmptyString
  | MCons k v MNil => (quote k ++ ":" ++ render v)%string
  | MCons k v rest =>
      (quote k ++ ":" ++ render v ++ "," ++ renderMembers rest)%string
  end.

Definition marshal (j : JSON) : bytes + error := inl (render j).

Definition marshalFails (j : JSON) : bytes + error :=
  inr (errorString "json: unsupported value").

(** A channel that accepts every message. *)
Definition chan : Channel World :=
  mkChannel World
    (fun exchange key mandatory immediate msg w => (None, w ++ [msg]))
    (fun queue consumer autoAck exclusive noLocal noWait args w =>
       (inl [], w)).

(** A channel that refuses every message. *)
Definition closed : Channel World :=
  mkChannel World
    (fun exchange key mandatory immediate msg w =>
       (Some (errorString "channel closed"), w))
    (fun queue consumer autoAck exclusive noLocal noWait args w =>
       (inr (errorString "channel closed"), w)).

Definition deliv : Delivery.t :=
  Delivery.mk [] "application/json" "abc" "q1" "m1" "c1" 7 false
              "" "requests" "{x:1}".

(** A before hook that sets the reply-key override. *)
Definition setPublishKey (key : string)
    : RequestFunc World :=
  fun ctx pub deliv =>
    ret (mkContext (ctxPublishExchange ctx) (Some key)
                   (ctxNackSleepDuration ctx), pub).

(** A before hook that sets the backoff override. *)
Definition setNackSleepDuration (d : Z) : RequestFunc World :=
  fun ctx pub deliv =>
    ret (mkContext (ctxPublishExchange ctx) (ctxPublishKey ctx) (Some d),
         pub).

(** An after hook that stamps the content type. *)
Definition stampJSON : SubscriberResponseFunc World :=
  fun ctx deliv ch pub =>
    ret (ctx,
         Publishing.mk (Publishing.Headers pub) "application/json"
           (Publishing.ContentEncoding pub) (Publishing.DeliveryMode pub)
           (Publishing.Priority pub) (Publishing.CorrelationId pub)
           (Publishing.ReplyTo pub) (Publishing.Expiration pub)
           (Publishing.MessageId pub) (Publishing.Timestamp pub)
           (Publishing.Type_ pub) (Publishing.UserId pub)
           (Publishing.AppId pub) (Publishing.Body pub)).

(** Decoding fails on an empty body. *)
Definition decode : DecodeRequestFunc World string :=
  fun ctx deliv =>
    if Delivery.Body deliv =? EmptyString
    then ret (inr (errorString "empty body"))
    else ret (inl (Delivery.Body deliv)).

(** The endpoint refuses the request [boom]. *)
Definition endpoint : Endpoint World string string :=
  fun ctx request =>
    if request =? "boom"
    then ret (inr (errorString "endpoint failed"))
    else ret (inl "{y:2}").

Definition encode : EncodeResponseFunc World string :=
  fun ctx pub response => ret (Publishing.setBody response pub, None).

Definition encodeFails : EncodeResponseFunc World string :=
  fun ctx pub response => ret (pub, Some (errorString "cannot encode")).

Definition observe : SubscriberFinalizerFunc World :=
  fun ctx err => ret tt.

Definition sub : Subscriber World string string :=
  NewSubscriber endpoint decode encode
    [SubscriberBefore [setPublishKey "replies"];
     SubscriberBefore [setNackSleepDuration 50000000];
     SubscriberAfter [stampJSON];
     ServerFinalizer [observe; observe]].

Definition subEncodeFails : Subscriber World string string :=
  NewSubscriber endpoint decode encodeFails
    [SubscriberAfter [stampJSON]; ServerFinalizer [observe]].

Definition emptyDeliv : Delivery.t :=
  Delivery.mk [] "" "abc" "q1" "m2" "c1" 8 false "" "requests" EmptyString.

Definition boomDeliv : Delivery.t :=
  Delivery.mk [] "" "abc" "q1" "m3" "c1" 9 false "" "requests" "boom".

(** A context whose reply-key override was set to the empty string. *)
Definition emptyKey : Context := mkContext None (Some EmptyString) None.

Definition backoff50ms : Context := mkContext None None (Some 50000000%Z).

(** The context the two before hooks of [sub] leave. *)
Definition hooked : Context :=
  mkContext None (Some "replies") (Some 50000000%Z).

(** The reply of [sub] to [deliv]. *)
Definition reply : Publishing.t :=
  Publishing.mk [] "application/json" "" 0 0 "abc" "" "" "" 0 "" "" ""
                "{y:2}".

(** The text [{"err":"boom"}]. *)
Definition errBoom : bytes :=
  ("{" ++ dq ++ "err" ++ dq ++ ":" ++ dq ++ "boom" ++ dq ++ "}")%string.

(** A publication whose correlation identifier is already set. *)
Definition tagged : Publishing.t :=
  Publishing.setCorrelationId "mine" Publishing.zero.

End Example.

(** ** Vocabulary of the statements *)

(** Events of the before loop: the calls of the hooks and what they do. *)
Definition beforeEvent {W Request Response}
    (ev : Event W Request Response) : bool :=
  match ev with
  | Before _ _ _ _ => true
  | Eff (LBefore _) _ => true
  | _ => false
  end.

Definition afterEvent {W Request Response}
    (ev : Event W Request Response) : bool :=
  match ev with
  | After _ _ _ _ _ => true
  | Eff (LAfter _) _ => true
  | _ => false
  end.

Definition finalizeEvent {W Request Response}
    (ev : Event W Request Response) : bool :=
  match ev with
  | Finalize _ _ _ => true
  | Eff (LFinalizer _) _ => true
  | _ => false
  end.


(** Stage [st] returned the error [err] in the log [tr]. *)
Definition stageFailed {W Request Response} (st : Stage) (err : error)
    (tr : list (Event W Request Response)) : Prop :=
  exists ctx pub, In (Returned st ctx pub (Some err)) tr.





(** The log of a failure branch: the logger, then the error encoder. *)
Definition failureLog {W Request Response}
    (s : Subscriber W Request Response) (ch : Channel W)
    (deliv : Delivery.t) (ctx : Context) (pub : Publishing.t) (err : error)
    (tr : list (Event W Request Response)) : Prop :=
  exists w1 w2,
    tr = Log "err" err
         :: map (Eff LLog) (trace (logger s "err" err w1))
         ++ ErrorEnc ctx err deliv ch pub
         :: map (Eff LErrorEncoder)
                (trace (errorEncoder s ctx err deliv ch pub w2)).

(** The log of the before loop of [s], run from the background context,
    the empty publication and the world [w]; it leaves [ctx] and [pub]. *)
Definition beforeLog {W Request Response}
    (s : Subscriber W Request Response) (deliv : Delivery.t) (w : W)
    (ctx : Context) (pub : Publishing.t)
    (tr : list (Event W Request Response)) : Prop :=
  value (runBefore (Request := Request) (Response := Response)
           (before s) 0 Background Publishing.zero deliv w) = (ctx, pub) /\
  Forall (fun ev => beforeEvent ev = true) tr /\
  labels tr = map LBefore (seq 0 (length (before s))).

(** The log of the after loop of [s], run from [ctx] and [pub]; it leaves
    [ctx'] and [pub']. *)
Definition afterLog {W Request Response}
    (s : Subscriber W Request Response) (deliv : Delivery.t) (ch : Channel W)
    (ctx : Context) (pub : Publishing.t)
    (ctx' : Context) (pub' : Publishing.t)
    (tr : list (Event W Request Response)) : Prop :=
  (exists w,
     value (runAfter (Request := Request) (Response := Response)
              (after s) 0 ctx deliv ch pub w) = (ctx', pub')) /\
  Forall (fun ev => afterEvent ev = true) tr /\
  labels tr = map LAfter (seq 0 (length (after s))).

(** The log of the deferred finalizer loop of [s], called with [ctx] and
    [err]. *)
Definition finalizerLog {W Request Response}
    (s : Subscriber W Request Response) (ctx : Context) (err : option error)
    (tr : list (Event W Request Response)) : Prop :=
  Forall (fun ev => finalizeEvent ev = true) tr /\
  labels tr = map LFinalizer (seq 0 (length (finalizer s))) /\
  filter isFinalize tr
  = map (fun i => Finalize i ctx err) (seq 0 (length (finalizer s))).

(** The five ways through the body of the handler: the value of [ctx] and
    [err] at its end, and its log. *)
Inductive Served {W Request Response} (s : Subscriber W Request Response)
    (ch : Channel W) (deliv : Delivery.t) (w : W)
    : Context -> option error -> list (Event W Request Response) -> Prop :=
| DecodeFailed tB ctxB pubB tD err tl :
    beforeLog s deliv w ctxB pubB tB ->
    failureLog s ch deliv ctxB pubB err tl ->
    Served s ch deliv w ctxB (Some err)
      (tB ++ Decode ctxB deliv :: map (Eff LDecode) tD
          ++ Returned SDecode ctxB pubB (Some err) :: tl)
| InvokeFailed tB ctxB pubB tD request tI err tl :
    beforeLog s deliv w ctxB pubB tB ->
    failureLog s ch deliv ctxB pubB err tl ->
    Served s ch deliv w ctxB (Some err)
      (tB ++ Decode ctxB deliv :: map (Eff LDecode) tD
          ++ Returned SDecode ctxB pubB None
          :: Invoke ctxB request :: map (Eff LInvoke) tI
          ++ Returned SInvoke ctxB pubB (Some err) :: tl)
| EncodeFailed tB ctxB pubB tD request tI tA ctxA pubA response tE pubE
               err tl :
    beforeLog s deliv w ctxB pubB tB ->
    afterLog s deliv ch ctxB pubB ctxA pubA tA ->
    failureLog s ch deliv ctxA pubE err tl ->
    Served s ch deliv w ctxA (Some err)
      (tB ++ Decode ctxB deliv :: map (Eff LDecode) tD
          ++ Returned SDecode ctxB pubB None
          :: Invoke ctxB request :: map (Eff LInvoke) tI
          ++ Returned SInvoke ctxB pubB None
          :: tA ++ Encode ctxA pubA response :: map (Eff LEncode) tE
          ++ Returned SEncode ctxA pubE (Some err) :: tl)
| PublishFailed tB ctxB pubB tD request tI tA ctxA pubA response tE pubE
                wP pubP err tl :
    beforeLog s deliv w ctxB pubB tB ->
    afterLog s deliv ch ctxB pubB ctxA pubA tA ->
    value (publishResponse ctxA deliv ch pubE wP) = (pubP, Some err) ->
    failureLog s ch deliv ctxA pubP err tl ->
    Served s ch deliv w ctxA (Some err)
      (tB ++ Decode ctxB deliv :: map (Eff LDecode) tD
          ++ Returned SDecode ctxB pubB None
          :: Invoke ctxB request :: map (Eff LInvoke) tI
          ++ Returned SInvoke ctxB pubB None
          :: tA ++ Encode ctxA pubA response :: map (Eff LEncode) tE
          ++ Returned SEncode ctxA pubE None
          :: PublishResponse ctxA deliv ch pubE
          :: map (Eff LPublish) (trace (publishResponse ctxA deliv ch pubE wP))
          ++ Returned SPublish ctxA pubP (Some err) :: tl)
| Published tB ctxB pubB tD request tI tA ctxA pubA response tE pubE
            wP pubP :
    beforeLog s deliv w ctxB pubB tB ->
    afterLog s deliv ch ctxB pubB ctxA pubA tA ->
    value (publishResponse ctxA deliv ch pubE wP) = (pubP, None) ->
    Served s ch deliv w ctxA None
      (tB ++ Decode ctxB deliv :: map (Eff LDecode) tD
          ++ Returned SDecode ctxB pubB None
          :: Invoke ctxB request :: map (Eff LInvoke) tI
          ++ Returned SInvoke ctxB pubB None
          :: tA ++ Encode ctxA pubA response :: map (Eff LEncode) tE
          ++ Returned SEncode ctxA pubE None
          :: PublishResponse ctxA deliv ch pubE
          :: map (Eff LPublish) (trace (publishResponse ctxA deliv ch pubE wP))
          ++ [Returned SPublish ctxA pubP None]).

(** The log of one delivery handled by [s] from the world [w]. *)
Definition deliveryLog {W Request Response}
    (s : Subscriber W Request Response) (ch : Channel W)
    (deliv : Delivery.t) (w : W) : list (Event W Request Response) :=
  trace (ServeDelivery s ch deliv w).

(** The reply with an error as the specification words it: the payload goes
    into the body of the publication, which is then published as on the
    success path, the outcome of the publish being dropped. *)
Definition spec_replyWithError {W} (b : bytes) (ctx : Context)
    (deliv : Delivery.t) (ch : Channel W) (pub : Publishing.t)
    : U W Publishing.t :=
  bind (publishResponse ctx deliv ch (Publishing.setBody b pub))
       (fun r => ret (fst r)).

(** Call sites inside user supplied functions, as opposed to the handler's
    own broker calls (made in [publishResponse]). *)
Definition userSite (site : Label) : bool :=
  match site with
  | LPublish | LCancel => false
  | _ => true
  end.

(** ** The rest of the file: encoders of responses and options as data *)

(** [EncodeNopResponse] *)
Definition EncodeNopResponse {W Response} : EncodeResponseFunc W Response :=
  fun ctx pub response => ret (pub, None).

(** [EncodeJSONResponse]; [json_Marshal] is [json.Marshal] at the type of
    the response. *)
Definition EncodeJSONResponse {W Response}
    (json_Marshal : Response -> bytes + error)
    : EncodeResponseFunc W Response :=
  fun ctx pub response =>
    match json_Marshal response with
    | inr err => ret (pub, Some err)
    | inl b => ret (Publishing.setBody b pub, None)
    end.

(** A call of one of the five option constructors of the file. *)
Inductive OptionCall (W Request Response : Type) : Type :=
| CallBefore (fs : list (RequestFunc W))
| CallAfter (fs : list (SubscriberResponseFunc W))
| CallErrorEncoder (ee : ErrorEncoder W)
| CallErrorLogger (l : Logger W)
| CallFinalizer (fs : list (SubscriberFinalizerFunc W)).

Arguments CallBefore {W Request Response} fs.
Arguments CallAfter {W Request Response} fs.
Arguments CallErrorEncoder {W Request Response} ee.
Arguments CallErrorLogger {W Request Response} l.
Arguments CallFinalizer {W Request Response} fs.

(** The option a call returns. *)
Definition optionOf {W Request Response}
    (c : OptionCall W Request Response)
    : SubscriberOption W Request Response :=
  match c with
  | CallBefore fs => SubscriberBefore fs
  | CallAfter fs => SubscriberAfter fs
  | CallErrorEncoder ee => SubscriberErrorEncoder ee
  | CallErrorLogger l => SubscriberErrorLogger l
  | CallFinalizer fs => ServerFinalizer fs
  end.

(** The hooks and finalizers a list of calls registers, in call order. *)
Definition beforeOf {W Request Response}
    (cs : list (OptionCall W Request Response)) : list (RequestFunc W) :=
  flat_map (fun c => match c with CallBefore fs => fs | _ => [] end) cs.

Definition afterOf {W Request Response}
    (cs : list (OptionCall W Request Response))
    : list (SubscriberResponseFunc W) :=
  flat_map (fun c => match c with CallAfter fs => fs | _ => [] end) cs.

Definition finalizerOf {W Request Response}
    (cs : list (OptionCall W Request Response))
    : list (SubscriberFinalizerFunc W) :=
  flat_map (fun c => match c with CallFinalizer fs => fs | _ => [] end) cs.

Definition isCallErrorEncoder {W Request Response}
    (c : OptionCall W Request Response) : bool :=
  match c with CallErrorEncoder _ => true | _ => false end.

Definition isCallErrorLogger {W Request Response}
    (c : OptionCall W Request Response) : bool :=
  match c with CallErrorLogger _ => true | _ => false end.

(** The error encoder of the last call that sets one, [DefaultErrorEncoder]
    when there is none. *)
Definition errorEncoderOf {W Request Response}
    (cs : list (OptionCall W Request Response)) : ErrorEncoder W :=
  match find isCallErrorEncoder (rev cs) with
  | Some (CallErrorEncoder ee) => ee
  | _ => DefaultErrorEncoder (W := W)
  end.

(** The logger of the last call that sets one, the no-op logger when there
    is none. *)
Definition loggerOf {W Request Response}
    (cs : list (OptionCall W Request Response)) : Logger W :=
  match find isCallErrorLogger (rev cs) with
  | Some (CallErrorLogger l) => l
  | _ => NopLogger (W := W)
  end.

(** ** More ways to read a log *)

Definition isDecode {W Request Response}
    (ev : Event W Request Response) : bool :=
  match ev with Decode _ _ => true | _ => false end.

Definition isInvoke {W Request Response}
    (ev : Event W Request Response) : bool :=
  match ev with Invoke _ _ => true | _ => false end.

Definition isEncode {W Request Response}
    (ev : Event W Request Response) : bool :=
  match ev with Encode _ _ _ => true | _ => false end.

Definition isCancel {W Request Response}
    (ev : Event W Request Response) : bool :=
  match ev with Cancel => true | _ => false end.



Definition Label_eqb (l1 l2 : Label) : bool :=
  match l1, l2 with
  | LBefore i, LBefore j => Nat.eqb i j
  | LDecode, LDecode => true
  | LInvoke, LInvoke => true
  | LAfter i, LAfter j => Nat.eqb i j
  | LEncode, LEncode => true
  | LPublish, LPublish => true
  | LLog, LLog => true
  | LErrorEncoder, LErrorEncoder => true
  | LFinalizer i, LFinalizer j => Nat.eqb i j
  | LCancel, LCancel => true
  | _, _ => false
  end.

(** The broker call of an event made at the call site [site]. *)
Definition effectAt {W Request Response} (site : Label)
    (ev : Event W Request Response) : list Effect :=
  match ev with
  | Eff site' ef => if Label_eqb site site' then [ef] else []
  | _ => []
  end.

(** The broker calls made at the call site [site], in order. *)
Definition effectsAt {W Request Response} (site : Label)
    (tr : list (Event W Request Response)) : list Effect :=
  flat_map (effectAt site) tr.

(** The log of a failure branch run from the world [w], call by call. *)
Definition failureSteps {W Request Response}
    (s : Subscriber W Request Response) (ch : Channel W)
    (deliv : Delivery.t) (ctx : Context) (pub : Publishing.t) (err : error)
    (w : W) : list (Event W Request Response) :=
  Log "err" err
  :: map (Eff LLog) (trace (logger s "err" err w))
  ++ ErrorEnc ctx err deliv ch pub
  :: map (Eff LErrorEncoder)
         (trace (errorEncoder s ctx err deliv ch pub
                              (world (logger s "err" err w)))).

(** The five ways through the body of the handler, with the result of every
    call: the value of [ctx] and [err] at its end, and its log. *)
Inductive Steps {W Request Response} (s : Subscriber W Request Response)
    (ch : Channel W) (deliv : Delivery.t) (w : W)
    : Context -> option error -> list (Event W Request Response) -> Prop :=
| StepsDecodeFailed ctxB pubB wB tB err wD tD :
    runBefore (before s) 0 Background Publishing.zero deliv w
    = (ctxB, pubB, wB, tB) ->
    dec s ctxB deliv wB = (inr err, wD, tD) ->
    Steps s ch deliv w ctxB (Some err)
      (tB ++ Decode ctxB deliv :: map (Eff LDecode) tD
          ++ Returned SDecode ctxB pubB (Some err)
          :: failureSteps s ch deliv ctxB pubB err wD)
| StepsInvokeFailed ctxB pubB wB tB request wD tD err wI tI :
    runBefore (before s) 0 Background Publishing.zero deliv w
    = (ctxB, pubB, wB, tB) ->
    dec s ctxB deliv wB = (inl request, wD, tD) ->
    e s ctxB request wD = (inr err, wI, tI) ->
    Steps s ch deliv w ctxB (Some err)
      (tB ++ Decode ctxB deliv :: map (Eff LDecode) tD
          ++ Returned SDecode ctxB pubB None
          :: Invoke ctxB request :: map (Eff LInvoke) tI
          ++ Returned SInvoke ctxB pubB (Some err)
          :: failureSteps s ch deliv ctxB pubB err wI)
| StepsEncodeFailed ctxB pubB wB tB request wD tD response wI tI
                    ctxA pubA wA tA pubE err wE tE :
    runBefore (before s) 0 Background Publishing.zero deliv w
    = (ctxB, pubB, wB, tB) ->
    dec s ctxB deliv wB = (inl request, wD, tD) ->
    e s ctxB request wD = (inl response, wI, tI) ->
    runAfter (Request := Request) (Response := Response)
             (after s) 0 ctxB deliv ch pubB wI = (ctxA, pubA, wA, tA) ->
    enc s ctxA pubA response wA = (pubE, Some err, wE, tE) ->
    Steps s ch deliv w ctxA (Some err)
      (tB ++ Decode ctxB deliv :: map (Eff LDecode) tD
          ++ Returned SDecode ctxB pubB None
          :: Invoke ctxB request :: map (Eff LInvoke) tI
          ++ Returned SInvoke ctxB pubB None
          :: tA ++ Encode ctxA pubA response :: map (Eff LEncode) tE
          ++ Returned SEncode ctxA pubE (Some err)
          :: failureSteps s ch deliv ctxA pubE err wE)
| StepsPublishFailed ctxB pubB wB tB request wD tD response wI tI
                     ctxA pubA wA tA pubE wE tE pubP err wP tP :
    runBefore (before s) 0 Background Publishing.zero deliv w
    = (ctxB, pubB, wB, tB) ->
    dec s ctxB deliv wB = (inl request, wD, tD) ->
    e s ctxB request wD = (inl response, wI, tI) ->
    runAfter (Request := Request) (Response := Response)
             (after s) 0 ctxB deliv ch pubB wI = (ctxA, pubA, wA, tA) ->
    enc s ctxA pubA response wA = (pubE, None, wE, tE) ->
    publishResponse ctxA deliv ch pubE wE = (pubP, Some err, wP, tP) ->
    Steps s ch deliv w ctxA (Some err)
      (tB ++ Decode ctxB deliv :: map (Eff LDecode) tD
          ++ Returned SDecode ctxB pubB None
          :: Invoke ctxB request :: map (Eff LInvoke) tI
          ++ Returned SInvoke ctxB pubB None
          :: tA ++ Encode ctxA pubA response :: map (Eff LEncode) tE
          ++ Returned SEncode ctxA pubE None
          :: PublishResponse ctxA deliv ch pubE
          :: map (Eff LPublish) tP
          ++ Returned SPublish ctxA pubP (Some err)
          :: failureSteps s ch deliv ctxA pubP err wP)
| StepsPublished ctxB pubB wB tB request wD tD response wI tI
                 ctxA pubA wA tA pubE wE tE pubP wP tP :
    runBefore (before s) 0 Background Publishing.zero deliv w
    = (ctxB, pubB, wB, tB) ->
    dec s ctxB deliv wB = (inl request, wD, tD) ->
    e s ctxB request wD = (inl response, wI, tI) ->
    runAfter (Request := Request) (Response := Response)
             (after s) 0 ctxB deliv ch pubB wI = (ctxA, pubA, wA, tA) ->
    enc s ctxA pubA response wA = (pubE, None, wE, tE) ->
    publishResponse ctxA deliv ch pubE wE = (pubP, None, wP, tP) ->
    Steps s ch deliv w ctxA None
      (tB ++ Decode ctxB deliv :: map (Eff LDecode) tD
          ++ Returned SDecode ctxB pubB None
          :: Invoke ctxB request :: map (Eff LInvoke) tI
          ++ Returned SInvoke ctxB pubB None
          :: tA ++ Encode ctxA pubA response :: map (Eff LEncode) tE
          ++ Returned SEncode ctxA pubE None
          :: PublishResponse ctxA deliv ch pubE
          :: map (Eff LPublish) tP
          ++ [Returned SPublish ctxA pubP None]).

(** ** More subscribers to run the handler on *)

Module More.

(** A subscriber that rejects and requeues, with a backoff set by a hook. *)
Definition subRequeue : Subscriber Example.World string string :=
  NewSubscriber Example.endpoint Example.decode Example.encode
    [SubscriberBefore [Example.setNackSleepDuration 50000000];
     SubscriberErrorEncoder (SingleNackRequeueErrorEncoder 0);
     ServerFinalizer [Example.observe]].

(** A subscriber that replies with the error. *)
Definition subReply : Subscriber Example.World string string :=
  NewSubscriber Example.endpoint Example.decode Example.encode
    [SubscriberErrorEncoder (ReplyErrorEncoder Example.marshal)].

(** A subscriber that replies with the error and acknowledges. *)
Definition subReplyAck : Subscriber Example.World string string :=
  NewSubscriber Example.endpoint Example.decode Example.encode
    [SubscriberErrorEncoder (ReplyAndAckErrorEncoder Example.marshal)].

(** A subscriber that does not encode. *)
Definition subNop : Subscriber Example.World string string :=
  NewSubscriber Example.endpoint Example.decode EncodeNopResponse [].

(** [json.Marshal] on strings. *)
Definition marshalText (r : string) : bytes + error :=
  inl (Example.quote r).

(** A subscriber that encodes the response as JSON. *)
Definition subJSON : Subscriber Example.World string string :=
  NewSubscriber Example.endpoint Example.decode
    (EncodeJSONResponse marshalText) [].


(** The reply of a subscriber without hooks to [Example.deliv]. *)
Definition plainReply : Publishing.t :=
  Publishing.mk [] "" "" 0 0 "abc" "" "" "" 0 "" "" "" "{y:2}".

(** The text [{"err":"channel closed"}]. *)
Definition errClosed : bytes :=
  ("{" ++ Example.dq ++ "err" ++ Example.dq ++ ":"
       ++ Example.dq ++ "channel closed" ++ Example.dq ++ "}")%string.

End More.

(** * Properties *)

Section Properties.

Variable W : Type.
Variables Request Response : Type.

Local Abbreviation Ev := (Event W Request Response).
Local Abbreviation Sub := (Subscriber W Request Response).

(** ** Reading logs *)

Lemma labels_app (tr1 tr2 : list Ev) :
  labels (tr1 ++ tr2) = labels tr1 ++ labels tr2.
Proof.
  induction tr1 as [|ev tr1 IH]; [reflexivity|].
  cbn [app labels]. destruct (label ev); cbn; now rewrite IH.
Qed.

Lemma labels_Eff (site : Label) (t : list Effect) :
  labels (map (@Eff W Request Response site) t) = [].
Proof. induction t as [|ef t IH]; [reflexivity|exact IH]. Qed.

Lemma filter_map_nil {A B} (p : B -> bool) (f : A -> B) (l : list A) :
  (forall x, p (f x) = false) -> filter p (map f l) = [].
Proof.
  intros Hp. induction l as [|x l IH]; [reflexivity|].
  cbn. now rewrite Hp.
Qed.

Lemma filter_segment_nil {A} (p q : A -> bool) (l : list A) :
  Forall (fun x => q x = true) l ->
  (forall x, q x = true -> p x = false) ->
  filter p l = [].
Proof.
  intros Hq Hpq. induction Hq as [|x l Hx _ IH]; [reflexivity|].
  cbn. now rewrite (Hpq x Hx).
Qed.

(** ** The loops *)

Lemma runBefore_labels (fs : list (RequestFunc W)) :
  forall i ctx pub deliv w,
    labels (trace (@runBefore W Request Response fs i ctx pub deliv w))
    = map LBefore (seq i (length fs)).
Proof.
  induction fs as [|f fs IH]; intros i ctx pub deliv w; [reflexivity|].
  cbn [runBefore]. unfold bind, emit, lift.
  destruct (f ctx pub deliv w) as [[[c p] w1] t1].
  specialize (IH (S i) c p deliv w1).
  destruct (runBefore fs (S i) c p deliv w1) as [[r w2] t2].
  cbn in *. rewrite labels_app, labels_Eff. cbn. now rewrite IH.
Qed.

Lemma runBefore_events (fs : list (RequestFunc W)) :
  forall i ctx pub deliv w,
    Forall (fun ev => beforeEvent ev = true)
           (trace (@runBefore W Request Response fs i ctx pub deliv w)).
Proof.
  induction fs as [|f fs IH]; intros i ctx pub deliv w; [constructor|].
  cbn [runBefore]. unfold bind, emit, lift.
  destruct (f ctx pub deliv w) as [[[c p] w1] t1].
  specialize (IH (S i) c p deliv w1).
  destruct (runBefore fs (S i) c p deliv w1) as [[r w2] t2].
  cbn in *. constructor; [reflexivity|].
  apply Forall_app; split; [|exact IH].
  apply Forall_forall. intros ev Hev.
  apply in_map_iff in Hev. destruct Hev as [ef [<- _]]. reflexivity.
Qed.

Lemma runAfter_labels (fs : list (SubscriberResponseFunc W)) :
  forall i ctx deliv ch pub w,
    labels (trace (@runAfter W Request Response fs i ctx deliv ch pub w))
    = map LAfter (seq i (length fs)).
Proof.
  induction fs as [|f fs IH]; intros i ctx deliv ch pub w; [reflexivity|].
  cbn [runAfter]. unfold bind, emit, lift.
  destruct (f ctx deliv ch pub w) as [[[c p] w1] t1].
  specialize (IH (S i) c deliv ch p w1).
  destruct (runAfter fs (S i) c deliv ch p w1) as [[r w2] t2].
  cbn in *. rewrite labels_app, labels_Eff. cbn. now rewrite IH.
Qed.

Lemma runAfter_events (fs : list (SubscriberResponseFunc W)) :
  forall i ctx deliv ch pub w,
    Forall (fun ev => afterEvent ev = true)
           (trace (@runAfter W Request Response fs i ctx deliv ch pub w)).
Proof.
  induction fs as [|f fs IH]; intros i ctx deliv ch pub w; [constructor|].
  cbn [runAfter]. unfold bind, emit, lift.
  destruct (f ctx deliv ch pub w) as [[[c p] w1] t1].
  specialize (IH (S i) c deliv ch p w1).
  destruct (runAfter fs (S i) c deliv ch p w1) as [[r w2] t2].
  cbn in *. constructor; [reflexivity|].
  apply Forall_app; split; [|exact IH].
  apply Forall_forall. intros ev Hev.
  apply in_map_iff in Hev. destruct Hev as [ef [<- _]]. reflexivity.
Qed.

Lemma runFinalizers_labels (fs : list (SubscriberFinalizerFunc W)) :
  forall i ctx err w,
    labels (trace (@runFinalizers W Request Response fs i ctx err w))
    = map LFinalizer (seq i (length fs)).
Proof.
  induction fs as [|f fs IH]; intros i ctx err w; [reflexivity|].
  cbn [runFinalizers]. unfold bind, emit, lift.
  destruct (f ctx err w) as [[u w1] t1].
  specialize (IH (S i) ctx err w1).
  destruct (runFinalizers fs (S i) ctx err w1) as [[r w2] t2].
  cbn in *. rewrite labels_app, labels_Eff. cbn. now rewrite IH.
Qed.

Lemma runFinalizers_calls (fs : list (SubscriberFinalizerFunc W)) :
  forall i ctx err w,
    filter isFinalize
           (trace (@runFinalizers W Request Response fs i ctx err w))
    = map (fun j => Finalize j ctx err) (seq i (length fs)).
Proof.
  induction fs as [|f fs IH]; intros i ctx err w; [reflexivity|].
  cbn [runFinalizers]. unfold bind, emit, lift.
  destruct (f ctx err w) as [[u w1] t1].
  specialize (IH (S i) ctx err w1).
  destruct (runFinalizers fs (S i) ctx err w1) as [[r w2] t2].
  cbn in *. rewrite filter_app, IH.
  rewrite filter_map_nil by reflexivity. reflexivity.
Qed.

Lemma runFinalizers_events (fs : list (SubscriberFinalizerFunc W)) :
  forall i ctx err w,
    Forall (fun ev => finalizeEvent ev = true)
           (trace (@runFinalizers W Request Response fs i ctx err w)).
Proof.
  induction fs as [|f fs IH]; intros i ctx err w; [constructor|].
  cbn [runFinalizers]. unfold bind, emit, lift.
  destruct (f ctx err w) as [[u w1] t1].
  specialize (IH (S i) ctx err w1).
  destruct (runFinalizers fs (S i) ctx err w1) as [[r w2] t2].
  cbn in *. constructor; [reflexivity|].
  apply Forall_app; split; [|exact IH].
  apply Forall_forall. intros ev Hev.
  apply in_map_iff in Hev. destruct Hev as [ef [<- _]]. reflexivity.
Qed.

(** ** The handler, path by path *)

Lemma failed_run (s : Sub) ch deliv ctx pub err w :
  value (failed s ch deliv ctx pub err w) = (ctx, Some err) /\
  failureLog s ch deliv ctx pub err (trace (failed s ch deliv ctx pub err w)).
Proof.
  unfold failed, failureLog, bind, emit, lift, ret.
  destruct (logger s "err" err w) as [[u w1] tL] eqn:HL.
  destruct (errorEncoder s ctx err deliv ch pub w1) as [[p w2] tE] eqn:HE.
  cbn. split; [reflexivity|].
  exists w, w1. rewrite HL, HE. cbn.
  now rewrite app_nil_r.
Qed.

Lemma serve_run (s : Sub) ch deliv w :
  exists ctx err,
    value (serve s ch deliv Background w) = (ctx, err) /\
    Served s ch deliv w ctx err (trace (serve s ch deliv Background w)).
Proof.
  remember (serve s ch deliv Background w) as r eqn:Hr.
  unfold serve in Hr.
  pose proof (runBefore_events
                (before s) 0 Background Publishing.zero deliv w) as HB1.
  pose proof (runBefore_labels
                (before s) 0 Background Publishing.zero deliv w) as HB2.
  unfold bind at 1 in Hr.
  destruct (runBefore (before s) 0 Background Publishing.zero deliv w)
    as [[[ctxB pubB] wB] tB] eqn:HB0.
  cbn [trace snd] in HB1, HB2.
  assert (HB : beforeLog s deliv w ctxB pubB tB).
  { unfold beforeLog. rewrite HB0. repeat split; assumption. }
  clear HB0.
  unfold bind at 1 in Hr. unfold emit at 1 in Hr.
  unfold bind at 1 in Hr. unfold lift at 1 in Hr.
  destruct (dec s ctxB deliv wB) as [[[request|err] wD] tD].
  - (* decoded *)
    unfold bind at 1 in Hr. unfold emit at 1 in Hr.
    unfold bind at 1 in Hr. unfold emit at 1 in Hr.
    unfold bind at 1 in Hr. unfold lift at 1 in Hr.
    destruct (e s ctxB request wD) as [[[response|err] wI] tI].
    + (* invoked *)
      unfold bind at 1 in Hr. unfold emit at 1 in Hr.
      pose proof (runAfter_events
                    (after s) 0 ctxB deliv ch pubB wI) as HA1.
      pose proof (runAfter_labels
                    (after s) 0 ctxB deliv ch pubB wI) as HA2.
      unfold bind at 1 in Hr.
      destruct (runAfter (after s) 0 ctxB deliv ch pubB wI)
        as [[[ctxA pubA] wA] tA] eqn:HA0.
      cbn [trace snd] in HA1, HA2.
      assert (HA : afterLog s deliv ch ctxB pubB ctxA pubA tA).
      { unfold afterLog. split; [|split; assumption].
        exists wI. now rewrite HA0. }
      clear HA0.
      unfold bind at 1 in Hr. unfold emit at 1 in Hr.
      unfold bind at 1 in Hr. unfold lift at 1 in Hr.
      destruct (enc s ctxA pubA response wA) as [[[pubE [err|]] wE] tE].
      * (* encode failed *)
        unfold bind at 1 in Hr. unfold emit at 1 in Hr.
        destruct (failed_run s ch deliv ctxA pubE err wE) as [Hv Hl].
        destruct (failed s ch deliv ctxA pubE err wE) as [[v wF] tl].
        cbn in Hv, Hl. subst v r. exists ctxA, (Some err).
        split; [reflexivity|]. cbn.
        repeat (rewrite <- ?app_assoc, <- ?app_comm_cons; cbn [app]).
        eapply EncodeFailed; eassumption.
      * (* encoded *)
        unfold bind at 1 in Hr. unfold emit at 1 in Hr.
        unfold bind at 1 in Hr. unfold emit at 1 in Hr.
        unfold bind at 1 in Hr. unfold lift at 1 in Hr.
        destruct (publishResponse ctxA deliv ch pubE wE)
          as [[[pubP [err|]] wP] tP] eqn:HP.
        -- unfold bind at 1 in Hr. unfold emit at 1 in Hr.
           destruct (failed_run s ch deliv ctxA pubP err wP) as [Hv Hl].
           destruct (failed s ch deliv ctxA pubP err wP) as [[v wF] tl].
           cbn in Hv, Hl. subst v r. exists ctxA, (Some err).
           split; [reflexivity|]. cbn.
           repeat (rewrite <- ?app_assoc, <- ?app_comm_cons; cbn [app]).
           replace tP with (trace (publishResponse ctxA deliv ch pubE wE))
             by now rewrite HP.
           eapply PublishFailed; try eassumption. now rewrite HP.
        -- unfold bind, emit, ret in Hr. subst r. exists ctxA, None.
           split; [reflexivity|]. cbn.
           repeat (rewrite <- ?app_assoc, <- ?app_comm_cons; cbn [app]).
           replace tP with (trace (publishResponse ctxA deliv ch pubE wE))
             by now rewrite HP.
           eapply Published; try eassumption. now rewrite HP.
    + (* endpoint failed *)
      unfold bind at 1 in Hr. unfold emit at 1 in Hr.
      destruct (failed_run s ch deliv ctxB pubB err wI) as [Hv Hl].
      destruct (failed s ch deliv ctxB pubB err wI) as [[v wF] tl].
      cbn in Hv, Hl. subst v r. exists ctxB, (Some err).
      split; [reflexivity|]. cbn.
      repeat (rewrite <- ?app_assoc, <- ?app_comm_cons; cbn [app]).
      eapply InvokeFailed; eassumption.
  - (* decode failed *)
    unfold bind at 1 in Hr. unfold emit at 1 in Hr.
    destruct (failed_run s ch deliv ctxB pubB err wD) as [Hv Hl].
    destruct (failed s ch deliv ctxB pubB err wD) as [[v wF] tl].
    cbn in Hv, Hl. subst v r. exists ctxB, (Some err).
    split; [reflexivity|]. cbn.
    repeat (rewrite <- ?app_assoc, <- ?app_comm_cons; cbn [app]).
    eapply DecodeFailed; eassumption.
Qed.

Lemma ServeDelivery_run (s : Sub) ch deliv w :
  exists ctx err tS tF,
    Served s ch deliv w ctx err tS /\
    finalizerLog s ctx err tF /\
    deliveryLog s ch deliv w = tS ++ tF ++ [Cancel].
Proof.
  unfold deliveryLog, ServeDelivery.
  destruct (serve_run s ch deliv w) as (ctx & err & Hv & HS).
  unfold bind at 1.
  destruct (serve s ch deliv Background w) as [[v w1] tS].
  cbn in Hv, HS. subst v.
  exists ctx, err, tS.
  destruct (finalizer s) as [|f fs] eqn:Hfs.
  - exists []. split; [exact HS|].
    split; [|reflexivity].
    unfold finalizerLog. rewrite Hfs. repeat split. constructor.
  - cbn [length Nat.ltb Nat.leb].
    pose proof (runFinalizers_events (f :: fs) 0 ctx err w1) as H1.
    pose proof (runFinalizers_labels (f :: fs) 0 ctx err w1) as H2.
    pose proof (runFinalizers_calls (f :: fs) 0 ctx err w1) as H3.
    unfold bind, emit.
    destruct (runFinalizers (f :: fs) 0 ctx err w1) as [[u w2] tF].
    cbn [trace snd] in *.
    exists tF. split; [exact HS|].
    split; [|reflexivity].
    unfold finalizerLog. rewrite Hfs. auto.
Qed.

(** ** Tactics to read a log *)

Ltac open_logs :=
  repeat match goal with
  | H : beforeLog _ _ _ _ _ _ |- _ => destruct H as (? & ? & ?)
  | H : afterLog _ _ _ _ _ _ _ _ |- _ => destruct H as (? & ? & ?)
  | H : finalizerLog _ _ _ _ |- _ => destruct H as (? & ? & ?)
  | H : failureLog _ _ _ _ _ _ _ |- _ => destruct H as (? & ? & ->)
  end.

Ltac by_cases_on_event :=
  let ev := fresh "ev" in
  intros ev; destruct ev as [| | | | | | | | | | |[] ?]; cbn; congruence.

Ltac read_log :=
  repeat first
    [ rewrite filter_app
    | rewrite labels_app
    | rewrite labels_Eff
    | rewrite filter_map_nil by reflexivity
    | match goal with
      | H : filter ?p ?t = _ |- context [filter ?p ?t] => rewrite H
      | H : labels ?t = _ |- context [labels ?t] => rewrite H
      | H : Forall (fun ev => ?q ev = true) ?t |- context [filter ?p ?t] =>
          rewrite (filter_segment_nil p q t H) by by_cases_on_event
      end
    | progress cbn [filter labels label app isReturned isLog isErrorEnc
                    isFinalize] ].

Ltac read_log_in H := revert H; read_log; intros H.

Ltac pick_event H :=
  cbn [In] in H;
  repeat match type of H with
  | _ \/ _ => destruct H as [H|H]
  | False => destruct H
  end;
  try discriminate H;
  try (inversion H; subst; clear H).



Lemma returned_in_log (tr : list Ev) ev :
  In ev tr -> isReturned ev = true -> In ev (filter isReturned tr).
Proof. intros; apply filter_In; now split. Qed.


(** ** The pipeline *)




Ltac in_this_log :=
  repeat (rewrite ?in_app_iff; cbn [In]); intuition auto.


(** ** publishResponse *)

Lemma publishResponse_run ctx deliv (ch : Channel W) pub w :
  publishResponse ctx deliv ch pub w
  = (withCorrelationId deliv pub,
     fst (Publish ch (getPublishExchange ctx) (replyKey ctx deliv)
                  false false (withCorrelationId deliv pub) w),
     snd (Publish ch (getPublishExchange ctx) (replyKey ctx deliv)
                  false false (withCorrelationId deliv pub) w),
     [EPublish (getPublishExchange ctx) (replyKey ctx deliv) false false
               (withCorrelationId deliv pub)
               (fst (Publish ch (getPublishExchange ctx)
                             (replyKey ctx deliv) false false
                             (withCorrelationId deliv pub) w))]).
Proof.
  unfold publishResponse, bind, ret, ch_Publish.
  fold (withCorrelationId deliv pub).
  assert (Hk : (if getPublishKey ctx =? EmptyString
                then Delivery.ReplyTo deliv else getPublishKey ctx)
               = replyKey ctx deliv).
  { unfold getPublishKey, replyKey.
    destruct (ctxPublishKey ctx) as [k|]; reflexivity. }
  rewrite Hk.
  destruct (Publish ch (getPublishExchange ctx) (replyKey ctx deliv)
                    false false (withCorrelationId deliv pub) w)
    as [res w'].
  reflexivity.
Qed.

(** C3 (amended): publishResponse makes exactly one Publish call, with
    mandatory and immediate false.  The message is the publication, its
    correlation identifier copied from the delivery when it was empty.
    The exchange is the context override, the empty string when unset.
    The routing key is the reply-key override when that is set to a
    non-empty string; when the override is unset or is the empty string
    the key is the delivery's reply-to field. *)
Theorem publishResponse_resolves_reply_target
    ctx deliv (ch : Channel W) pub w :
  exists exchange key msg res,
    trace (publishResponse ctx deliv ch pub w)
    = [EPublish exchange key false false msg res] /\
    value (publishResponse ctx deliv ch pub w) = (msg, res) /\
    (Publishing.CorrelationId pub = EmptyString ->
     msg = Publishing.setCorrelationId (Delivery.CorrelationId deliv) pub) /\
    (Publishing.CorrelationId pub <> EmptyString -> msg = pub) /\
    exchange = spec_replyExchange ctx /\
    (forall k, ctxPublishKey ctx = Some k -> k <> EmptyString -> key = k) /\
    (ctxPublishKey ctx = Some EmptyString -> key = Delivery.ReplyTo deliv) /\
    (ctxPublishKey ctx = None -> key = Delivery.ReplyTo deliv).
Proof.
  rewrite publishResponse_run. cbn [trace value fst snd].
  do 4 eexists. split; [reflexivity|]. split; [reflexivity|].
  unfold withCorrelationId, replyKey, spec_replyExchange, getPublishExchange.
  repeat split.
  - intros ->. reflexivity.
  - intros Hne. apply String.eqb_neq in Hne. now rewrite Hne.
  - intros k -> Hne. apply String.eqb_neq in Hne. now rewrite Hne.
  - intros ->. reflexivity.
  - intros ->. reflexivity.
Qed.

(** C9: when the publication's correlation identifier is not empty,
    publishResponse leaves the whole publication as it is and publishes
    it unchanged; the identifier of the delivery is not copied. *)
Theorem publishResponse_keeps_correlation_id
    ctx deliv (ch : Channel W) pub w :
  Publishing.CorrelationId pub <> EmptyString ->
  fst (value (publishResponse ctx deliv ch pub w)) = pub /\
  exists exchange key res,
    trace (publishResponse ctx deliv ch pub w)
    = [EPublish exchange key false false pub res].
Proof.
  intros Hne. rewrite publishResponse_run. cbn [trace value fst snd].
  unfold withCorrelationId.
  apply String.eqb_neq in Hne. rewrite Hne.
  split; [reflexivity|]. do 3 eexists. reflexivity.
Qed.

(** ** Error encoders *)

(** The silent encoder: no broker call, publication and world as they
    were. *)
Theorem DefaultErrorEncoder_does_nothing ctx err deliv (ch : Channel W) pub w :
  DefaultErrorEncoder ctx err deliv ch pub w = (pub, w, []).
Proof. reflexivity. Qed.

(** C8: SingleNackRequeueErrorEncoder makes exactly two calls: one Nack
    of the delivery with multiple false and requeue true, then one sleep
    for the backoff of the context, the fallback when the context has
    none.  It publishes nothing and leaves publication and world as they
    were. *)
Theorem SingleNackRequeue_nacks_then_sleeps
    fallback ctx err deliv (ch : Channel W) pub w :
  trace (SingleNackRequeueErrorEncoder fallback ctx err deliv ch pub w)
  = [ENack (Delivery.DeliveryTag deliv) false true;
     ESleep (match ctxNackSleepDuration ctx with
             | Some d => d
             | None => fallback
             end)] /\
  value (SingleNackRequeueErrorEncoder fallback ctx err deliv ch pub w)
  = pub /\
  world (SingleNackRequeueErrorEncoder fallback ctx err deliv ch pub w) = w.
Proof. repeat split. Qed.

Lemma replyKey_code ctx deliv :
  (if getPublishKey ctx =? EmptyString
   then Delivery.ReplyTo deliv else getPublishKey ctx)
  = replyKey ctx deliv.
Proof.
  unfold getPublishKey, replyKey.
  destruct (ctxPublishKey ctx) as [k|]; reflexivity.
Qed.

Lemma withCorrelationId_setBody deliv b pub :
  withCorrelationId deliv (Publishing.setBody b pub)
  = Publishing.setBody b (withCorrelationId deliv pub).
Proof.
  unfold withCorrelationId. cbn [Publishing.CorrelationId Publishing.setBody].
  destruct (Publishing.CorrelationId pub =? EmptyString); reflexivity.
Qed.

Lemma ReplyErrorEncoder_run (json_Marshal : JSON -> bytes + error)
    ctx err deliv (ch : Channel W) pub w :
  ReplyErrorEncoder json_Marshal ctx err deliv ch pub w
  = match json_Marshal
            (JObject (MCons "err" (JString (err_Error err)) MNil)) with
    | inr _ => (withCorrelationId deliv pub, w, [])
    | inl b =>
        let msg := Publishing.setBody b (withCorrelationId deliv pub) in
        let r := Publish ch (getPublishExchange ctx) (replyKey ctx deliv)
                         false false msg w in
        (msg, snd r,
         [EPublish (getPublishExchange ctx) (replyKey ctx deliv)
                   false false msg (fst r)])
    end.
Proof.
  unfold ReplyErrorEncoder, DefaultErrorResponse_json. cbn [Error].
  fold (withCorrelationId deliv pub). rewrite replyKey_code.
  destruct (json_Marshal _) as [b|e1]; [|reflexivity].
  unfold bind, ch_Publish, ret. cbn zeta.
  destruct (Publish ch _ _ _ _ _ w) as [res w'].
  reflexivity.
Qed.

(** C6: when the payload [{err: message}] marshals to [b],
    ReplyErrorEncoder behaves as publishResponse run on the publication
    with body [b] (same correlation identifier, exchange, routing key and
    Publish call), the outcome of the publish dropped; the publication it
    leaves has body [b]; it neither acknowledges nor rejects. *)
Theorem ReplyErrorEncoder_replies_like_success_path
    (json_Marshal : JSON -> bytes + error)
    ctx err deliv (ch : Channel W) pub w b :
  json_Marshal (JObject (MCons "err" (JString (err_Error err)) MNil))
  = inl b ->
  ReplyErrorEncoder json_Marshal ctx err deliv ch pub w
  = spec_replyWithError b ctx deliv ch pub w /\
  Publishing.Body (value (ReplyErrorEncoder json_Marshal
                            ctx err deliv ch pub w)) = b /\
  Forall (fun ef => isAck ef = false /\ isNack ef = false)
         (trace (ReplyErrorEncoder json_Marshal ctx err deliv ch pub w)).
Proof.
  intros Hm.
  unfold spec_replyWithError, bind. rewrite publishResponse_run.
  rewrite ReplyErrorEncoder_run, Hm, withCorrelationId_setBody.
  cbn. repeat split. repeat constructor.
Qed.

Lemma ReplyAndAckErrorEncoder_run (json_Marshal : JSON -> bytes + error)
    ctx err deliv (ch : Channel W) pub w :
  trace (ReplyAndAckErrorEncoder json_Marshal ctx err deliv ch pub w)
  = trace (ReplyErrorEncoder json_Marshal ctx err deliv ch pub w)
    ++ [EAck (Delivery.DeliveryTag deliv) false].
Proof.
  unfold ReplyAndAckErrorEncoder, bind, deliv_Ack, emit, ret.
  destruct (ReplyErrorEncoder json_Marshal ctx err deliv ch pub w)
    as [[p w1] t1].
  reflexivity.
Qed.

(** C7: when the JSON object with the single member [err], the error's
    message, marshals to [b], ReplyAndAckErrorEncoder makes exactly two
    broker calls: one Publish whose body is [b], then one Ack of the
    delivery with multiple false. *)
Theorem ReplyAndAck_publishes_once_then_acks_once
    (json_Marshal : JSON -> bytes + error)
    ctx err deliv (ch : Channel W) pub w b :
  json_Marshal (JObject (MCons "err" (JString (err_Error err)) MNil))
  = inl b ->
  exists exchange key msg res,
    trace (ReplyAndAckErrorEncoder json_Marshal ctx err deliv ch pub w)
    = [EPublish exchange key false false msg res;
       EAck (Delivery.DeliveryTag deliv) false] /\
    Publishing.Body msg = b.
Proof.
  intros Hm. rewrite ReplyAndAckErrorEncoder_run, ReplyErrorEncoder_run, Hm.
  cbn. do 4 eexists. split; reflexivity.
Qed.

(** C10: ReplyAndAckErrorEncoder always ends with exactly one Ack of the
    delivery, multiple false, after whatever ReplyErrorEncoder did: alone
    when marshalling failed and nothing was published, and after the
    Publish call whatever that call returned. *)
Theorem ReplyAndAck_acks_whatever_the_reply_did
    (json_Marshal : JSON -> bytes + error)
    ctx err deliv (ch : Channel W) pub w :
  trace (ReplyAndAckErrorEncoder json_Marshal ctx err deliv ch pub w)
  = trace (ReplyErrorEncoder json_Marshal ctx err deliv ch pub w)
    ++ [EAck (Delivery.DeliveryTag deliv) false] /\
  filter isAck
    (trace (ReplyAndAckErrorEncoder json_Marshal ctx err deliv ch pub w))
  = [EAck (Delivery.DeliveryTag deliv) false] /\
  (forall e1,
     json_Marshal (JObject (MCons "err" (JString (err_Error err)) MNil))
     = inr e1 ->
     trace (ReplyAndAckErrorEncoder json_Marshal ctx err deliv ch pub w)
     = [EAck (Delivery.DeliveryTag deliv) false]) /\
  (forall b,
     json_Marshal (JObject (MCons "err" (JString (err_Error err)) MNil))
     = inl b ->
     exists exchange key msg,
       trace (ReplyAndAckErrorEncoder json_Marshal ctx err deliv ch pub w)
       = [EPublish exchange key false false msg
                   (fst (Publish ch exchange key false false msg w));
          EAck (Delivery.DeliveryTag deliv) false]).
Proof.
  rewrite ReplyAndAckErrorEncoder_run, ReplyErrorEncoder_run.
  split; [reflexivity|].
  destruct (json_Marshal _) as [b|e1]; cbn.
  - repeat split.
    + intros e1 H; discriminate H.
    + intros b' _. do 3 eexists. reflexivity.
  - repeat split.
    intros b H; discriminate H.
Qed.

Ltac effect_cases H :=
  repeat (rewrite ?in_app_iff, ?in_map_iff in H; cbn [In] in H);
  repeat match type of H with
  | _ \/ _ => destruct H as [H|H]
  end;
  try contradiction;
  try discriminate H;
  try (let x := fresh "ef" in
       let Heq := fresh "Heq" in
       destruct H as (x & Heq & H); inversion Heq; subst; clear Heq);
  try match goal with
  | Hseg : Forall _ ?t, Hin : In _ ?t |- _ =>
      apply (proj1 (Forall_forall _ _) Hseg) in Hin
  end.

(** C5: every broker call in the log of a delivery that is made by the
    handler's own code is a Publish: an Ack or a Nack can only occur
    inside a call to a configured function.  With the default error
    encoder and a failed stage, the error encoder makes no broker call at
    all, and the handler's own Publish, if it was reached, returned an
    error: no acknowledgement, no rejection and no reply. *)
Theorem handler_never_acknowledges (s : Sub) ch deliv w site ef :
  In (Eff site ef) (deliveryLog s ch deliv w) ->
  (site = LPublish -> isPublish ef = true) /\
  (orb (isAck ef) (isNack ef) = true -> userSite site = true) /\
  (errorEncoder s = DefaultErrorEncoder ->
   (exists st err, stageFailed st err (deliveryLog s ch deliv w)) ->
   site <> LErrorEncoder /\
   (site = LPublish ->
    exists exchange key msg err,
      ef = EPublish exchange key false false msg (Some err))).
Proof.
  intros Hin.
  destruct (ServeDelivery_run s ch deliv w)
    as (c & e0 & tS & tF & HS & HF & Htr).
  rewrite Htr in *. clear Htr.
  destruct HS; open_logs; effect_cases Hin.
  all: try match type of Hin with
       | In _ (trace (publishResponse _ _ _ _ _)) =>
           rewrite publishResponse_run in Hin;
           cbn [trace snd In] in Hin;
           destruct Hin as [<-|[]]
       end.
  all: split; [intros Hs|split; [intros Hk|intros Hdef Hfail]].
  all: try discriminate Hs.
  all: try reflexivity.
  all: try discriminate Hk.
  all: try (destruct site; first [reflexivity | discriminate]).
  all: try (split; [discriminate|intros Hs; discriminate Hs]).
  all: try (destruct site; split; discriminate).
  all: try (rewrite Hdef in Hin; destruct Hin).
  - (* publish failed *)
    split; [discriminate|]. intros _.
    match goal with
    | H : value (publishResponse _ _ _ _ _) = _ |- _ =>
        rewrite publishResponse_run in H; cbn [value fst] in H;
        inversion H as [[Hp Hres]]
    end.
    do 4 eexists. rewrite Hres. reflexivity.
  - (* published: no stage failed *)
    exfalso.
    destruct Hfail as (st & err & c' & p' & Hin).
    apply returned_in_log in Hin; [|reflexivity].
    read_log_in Hin. pick_event Hin.
Qed.

(** ** The handler, call by call *)

Lemma failed_steps (s : Sub) ch deliv ctx pub err w :
  value (failed s ch deliv ctx pub err w) = (ctx, Some err) /\
  trace (failed s ch deliv ctx pub err w)
  = failureSteps s ch deliv ctx pub err w.
Proof.
  unfold failed, failureSteps, bind, emit, lift, ret.
  destruct (logger s "err" err w) as [[u w1] tL].
  cbn [world trace fst snd].
  destruct (errorEncoder s ctx err deliv ch pub w1) as [[p w2] tE].
  cbn. split; [reflexivity|]. now rewrite app_nil_r.
Qed.

Lemma serve_steps (s : Sub) ch deliv w :
  exists ctx err,
    value (serve s ch deliv Background w) = (ctx, err) /\
    Steps s ch deliv w ctx err (trace (serve s ch deliv Background w)).
Proof.
  remember (serve s ch deliv Background w) as r eqn:Hr.
  unfold serve in Hr.
  unfold bind at 1 in Hr.
  destruct (runBefore (before s) 0 Background Publishing.zero deliv w)
    as [[[ctxB pubB] wB] tB] eqn:HB.
  unfold bind at 1 in Hr. unfold emit at 1 in Hr.
  unfold bind at 1 in Hr. unfold lift at 1 in Hr.
  destruct (dec s ctxB deliv wB) as [[[request|err] wD] tD] eqn:HD.
  - unfold bind at 1 in Hr. unfold emit at 1 in Hr.
    unfold bind at 1 in Hr. unfold emit at 1 in Hr.
    unfold bind at 1 in Hr. unfold lift at 1 in Hr.
    destruct (e s ctxB request wD) as [[[response|err] wI] tI] eqn:HI.
    + unfold bind at 1 in Hr. unfold emit at 1 in Hr.
      unfold bind at 1 in Hr.
      destruct (runAfter (after s) 0 ctxB deliv ch pubB wI)
        as [[[ctxA pubA] wA] tA] eqn:HA.
      unfold bind at 1 in Hr. unfold emit at 1 in Hr.
      unfold bind at 1 in Hr. unfold lift at 1 in Hr.
      destruct (enc s ctxA pubA response wA)
        as [[[pubE [err|]] wE] tE] eqn:HE.
      * unfold bind at 1 in Hr. unfold emit at 1 in Hr.
        destruct (failed_steps s ch deliv ctxA pubE err wE) as [Hv Hl].
        destruct (failed s ch deliv ctxA pubE err wE) as [[v wF] tl].
        cbn in Hv, Hl. subst v r tl. exists ctxA, (Some err).
        split; [reflexivity|]. cbn.
        repeat (rewrite <- ?app_assoc, <- ?app_comm_cons; cbn [app]).
        eapply StepsEncodeFailed; eassumption.
      * unfold bind at 1 in Hr. unfold emit at 1 in Hr.
        unfold bind at 1 in Hr. unfold emit at 1 in Hr.
        unfold bind at 1 in Hr. unfold lift at 1 in Hr.
        destruct (publishResponse ctxA deliv ch pubE wE)
          as [[[pubP [err|]] wP] tP] eqn:HP.
        -- unfold bind at 1 in Hr. unfold emit at 1 in Hr.
           destruct (failed_steps s ch deliv ctxA pubP err wP) as [Hv Hl].
           destruct (failed s ch deliv ctxA pubP err wP) as [[v wF] tl].
           cbn in Hv, Hl. subst v r tl. exists ctxA, (Some err).
           split; [reflexivity|]. cbn.
           repeat (rewrite <- ?app_assoc, <- ?app_comm_cons; cbn [app]).
           eapply StepsPublishFailed; eassumption.
        -- unfold bind, emit, ret in Hr. subst r. exists ctxA, None.
           split; [reflexivity|]. cbn.
           repeat (rewrite <- ?app_assoc, <- ?app_comm_cons; cbn [app]).
           eapply StepsPublished; eassumption.
    + unfold bind at 1 in Hr. unfold emit at 1 in Hr.
      destruct (failed_steps s ch deliv ctxB pubB err wI) as [Hv Hl].
      destruct (failed s ch deliv ctxB pubB err wI) as [[v wF] tl].
      cbn in Hv, Hl. subst v r tl. exists ctxB, (Some err).
      split; [reflexivity|]. cbn.
      repeat (rewrite <- ?app_assoc, <- ?app_comm_cons; cbn [app]).
      eapply StepsInvokeFailed; eassumption.
  - unfold bind at 1 in Hr. unfold emit at 1 in Hr.
    destruct (failed_steps s ch deliv ctxB pubB err wD) as [Hv Hl].
    destruct (failed s ch deliv ctxB pubB err wD) as [[v wF] tl].
    cbn in Hv, Hl. subst v r tl. exists ctxB, (Some err).
    split; [reflexivity|]. cbn.
    repeat (rewrite <- ?app_assoc, <- ?app_comm_cons; cbn [app]).
    eapply StepsDecodeFailed; eassumption.
Qed.

Lemma ServeDelivery_steps (s : Sub) ch deliv w :
  exists ctx err tS tF,
    Steps s ch deliv w ctx err tS /\
    finalizerLog s ctx err tF /\
    deliveryLog s ch deliv w = tS ++ tF ++ [Cancel].
Proof.
  unfold deliveryLog, ServeDelivery.
  destruct (serve_steps s ch deliv w) as (ctx & err & Hv & HS).
  unfold bind at 1.
  destruct (serve s ch deliv Background w) as [[v w1] tS].
  cbn in Hv, HS. subst v.
  exists ctx, err, tS.
  destruct (finalizer s) as [|f fs] eqn:Hfs.
  - exists []. split; [exact HS|].
    split; [|reflexivity].
    unfold finalizerLog. rewrite Hfs. repeat split. constructor.
  - cbn [length Nat.ltb Nat.leb].
    pose proof (runFinalizers_events (f :: fs) 0 ctx err w1) as H1.
    pose proof (runFinalizers_labels (f :: fs) 0 ctx err w1) as H2.
    pose proof (runFinalizers_calls (f :: fs) 0 ctx err w1) as H3.
    unfold bind, emit.
    destruct (runFinalizers (f :: fs) 0 ctx err w1) as [[u w2] tF].
    cbn [trace snd] in *.
    exists tF. split; [exact HS|].
    split; [|reflexivity].
    unfold finalizerLog. rewrite Hfs. auto.
Qed.

(** ** Tactics to read a log call by call *)

Lemma effectsAt_app site (tr1 tr2 : list Ev) :
  effectsAt site (tr1 ++ tr2) = effectsAt site tr1 ++ effectsAt site tr2.
Proof. apply flat_map_app. Qed.

Lemma effectsAt_cons site (ev : Ev) (tr : list Ev) :
  effectsAt site (ev :: tr) = effectAt site ev ++ effectsAt site tr.
Proof. reflexivity. Qed.

Lemma effectsAt_nil site : effectsAt site (@nil Ev) = [].
Proof. reflexivity. Qed.

Lemma effectsAt_here site (t : list Effect) :
  effectsAt site (map (@Eff W Request Response site) t) = t.
Proof.
  induction t as [|ef t IH]; [reflexivity|].
  unfold effectsAt in *. cbn [map flat_map effectAt].
  assert (Hs : Label_eqb site site = true)
    by (destruct site; cbn; auto using Nat.eqb_refl).
  rewrite Hs, IH. reflexivity.
Qed.

Lemma effectsAt_elsewhere site site' (t : list Effect) :
  Label_eqb site site' = false ->
  effectsAt site (map (@Eff W Request Response site') t) = [].
Proof.
  intros Hs. induction t as [|ef t IH]; [reflexivity|].
  unfold effectsAt in *. cbn [map flat_map effectAt]. now rewrite Hs, IH.
Qed.

Lemma effectsAt_segment site (q : Ev -> bool) (t : list Ev) :
  Forall (fun ev => q ev = true) t ->
  (forall ev, q ev = true -> effectAt site ev = []) ->
  effectsAt site t = [].
Proof.
  intros Hq Hs. induction Hq as [|ev t Hev _ IH]; [reflexivity|].
  unfold effectsAt in *. cbn [flat_map]. now rewrite (Hs ev Hev), IH.
Qed.

Ltac loop_facts :=
  try match goal with
  | H : runBefore ?fs ?i ?c ?p ?d ?w = (_, _, _, ?t) |- _ =>
      let H1 := fresh "Hev" in
      let H2 := fresh "Hlab" in
      pose proof (runBefore_events fs i c p d w) as H1;
      pose proof (runBefore_labels fs i c p d w) as H2;
      rewrite H in H1, H2; cbn [trace snd] in H1, H2
  end;
  try match goal with
  | H : runAfter ?fs ?i ?c ?d ?ch ?p ?w = (_, _, _, ?t) |- _ =>
      let H1 := fresh "Hev" in
      let H2 := fresh "Hlab" in
      pose proof (runAfter_events fs i c d ch p w) as H1;
      pose proof (runAfter_labels fs i c d ch p w) as H2;
      rewrite H in H1, H2; cbn [trace snd] in H1, H2
  end;
  repeat match goal with
  | H : finalizerLog _ _ _ _ |- _ => destruct H as (? & ? & ?)
  end;
  unfold failureSteps in *.

Ltac by_cases_on_site :=
  let ev := fresh "ev" in
  intros ev; destruct ev as [| | | | | | | | | | |[] ?]; cbn;
  congruence.

Ltac read_steps :=
  repeat first
    [ rewrite filter_app
    | rewrite labels_app
    | rewrite labels_Eff
    | rewrite effectsAt_app
    | rewrite effectsAt_here
    | rewrite effectsAt_elsewhere by reflexivity
    | rewrite filter_map_nil by reflexivity
    | match goal with
      | H : filter ?p ?t = _ |- context [filter ?p ?t] => rewrite H
      | H : labels ?t = _ |- context [labels ?t] => rewrite H
      | H : Forall (fun ev => ?q ev = true) ?t |- context [filter ?p ?t] =>
          rewrite (filter_segment_nil p q t H) by by_cases_on_event
      | H : Forall (fun ev => ?q ev = true) ?t
        |- context [effectsAt ?site ?t] =>
          rewrite (effectsAt_segment site q t H) by by_cases_on_site
      end
    | progress cbn [filter labels label app isReturned isLog isErrorEnc
                    isFinalize isDecode isInvoke isEncode isCancel]
    | rewrite effectsAt_nil
    | rewrite effectsAt_cons; cbn [effectAt app] ].

Ltac read_steps_in H := revert H; read_steps; intros H.



(** ** Construction *)

Lemma options_in_turn (cs : list (OptionCall W Request Response)) :
  forall s : Sub,
    fold_left (fun s option => option s) (map optionOf cs) s
    = mkSubscriber W Request Response (e s) (dec s) (enc s)
        (before s ++ beforeOf cs) (after s ++ afterOf cs)
        (finalizer s ++ finalizerOf cs)
        (match find isCallErrorEncoder (rev cs) with
         | Some (CallErrorEncoder ee) => ee
         | _ => errorEncoder s
         end)
        (match find isCallErrorLogger (rev cs) with
         | Some (CallErrorLogger l) => l
         | _ => logger s
         end).
Proof.
  induction cs as [|c cs IH] using rev_ind; intros s.
  - destruct s. cbn. now rewrite !app_nil_r.
  - rewrite map_app, fold_left_app, IH, rev_app_distr.
    unfold beforeOf, afterOf, finalizerOf.
    rewrite !flat_map_app. cbn [flat_map rev app find map fold_left].
    destruct c; cbn; rewrite ?app_nil_r, ?app_assoc; reflexivity.
Qed.

(** X1: a subscriber built from calls of the five option constructors has
    the endpoint, decoder and encoder it was given; its before hooks, after
    hooks and finalizers are those of the calls, concatenated in call
    order; its error encoder and logger are those of the last call that
    sets one, the silent encoder and the no-op logger when no call does. *)
Theorem NewSubscriber_applies_options_in_order
    (ep : Endpoint W Request Response) (d : DecodeRequestFunc W Request)
    (c : EncodeResponseFunc W Response)
    (cs : list (OptionCall W Request Response)) :
  NewSubscriber ep d c (map optionOf cs)
  = mkSubscriber W Request Response ep d c
      (beforeOf cs) (afterOf cs) (finalizerOf cs)
      (errorEncoderOf cs) (loggerOf cs).
Proof.
  unfold NewSubscriber. rewrite options_in_turn. reflexivity.
Qed.

(** ** The loops *)

(** X2: running the before hooks [fs1 ++ fs2] is running [fs1] and then
    [fs2], numbered on, from the context, publication and world [fs1]
    leaves; the log is the two logs in sequence. *)
Theorem runBefore_app (fs1 fs2 : list (RequestFunc W)) :
  forall i ctx pub deliv w,
    runBefore (Request := Request) (Response := Response)
              (fs1 ++ fs2) i ctx pub deliv w
    = bind (runBefore fs1 i ctx pub deliv)
           (fun r => runBefore fs2 (i + length fs1) (fst r) (snd r) deliv) w.
Proof.
  induction fs1 as [|f fs1 IH]; intros i ctx pub deliv w.
  - cbn [app runBefore length]. unfold bind, ret. cbn [fst snd].
    rewrite Nat.add_0_r.
    destruct (runBefore fs2 i ctx pub deliv w) as [[r w2] t2]. reflexivity.
  - cbn [app runBefore length]. unfold bind, emit, lift.
    destruct (f ctx pub deliv w) as [[[c p] w1] t1].
    rewrite IH. unfold bind.
    destruct (runBefore fs1 (S i) c p deliv w1) as [[[c1 p1] w2] t2].
    cbn [fst snd].
    replace (i + S (length fs1)) with (S i + length fs1) by lia.
    destruct (runBefore fs2 (S i + length fs1) c1 p1 deliv w2)
      as [[r w3] t3].
    cbn. now rewrite <- !app_assoc.
Qed.

(** ** Calls every delivery gets *)

(** X3: whatever happens later, decode is called exactly once, on the
    delivery, with the context the before hooks leave. *)
Theorem decode_is_called_once (s : Sub) ch deliv w :
  filter isDecode (deliveryLog s ch deliv w)
  = [Decode (fst (value (runBefore (Request := Request)
                           (Response := Response)
                           (before s) 0 Background Publishing.zero deliv w)))
            deliv].
Proof.
  destruct (ServeDelivery_steps s ch deliv w)
    as (c & e0 & tS & tF & HS & HF & Htr).
  rewrite Htr. clear Htr.
  destruct HS; loop_facts; read_steps.
  all: match goal with
       | H : runBefore _ _ _ _ _ _ = _ |- _ => rewrite H
       end; reflexivity.
Qed.

(** X4: cancel is called exactly once on every path, and it is the last
    call of the handler. *)
Theorem cancel_is_called_once_and_last (s : Sub) ch deliv w :
  filter isCancel (deliveryLog s ch deliv w) = [Cancel] /\
  exists pre, deliveryLog s ch deliv w = pre ++ [Cancel].
Proof.
  destruct (ServeDelivery_steps s ch deliv w)
    as (c & e0 & tS & tF & HS & HF & Htr).
  rewrite Htr. clear Htr. split.
  - destruct HS; loop_facts; read_steps; reflexivity.
  - exists (tS ++ tF). now rewrite <- app_assoc.
Qed.





(** ** What flows from stage to stage *)




(** X10: the handler itself publishes at most once per delivery, and not
    at all when decode, the endpoint or encode fails. *)
Theorem own_publish_at_most_once (s : Sub) ch deliv w :
  length (effectsAt LPublish (deliveryLog s ch deliv w)) <= 1 /\
  (forall st err,
     stageFailed st err (deliveryLog s ch deliv w) ->
     st <> SPublish ->
     effectsAt LPublish (deliveryLog s ch deliv w) = []).
Proof.
  destruct (ServeDelivery_steps s ch deliv w)
    as (c & e0 & tS & tF & HS & HF & Htr).
  rewrite Htr in *. clear Htr. split.
  - destruct HS; loop_facts; read_steps; rewrite ?app_nil_r;
      cbn [length]; try lia.
    all: match goal with
         | H : publishResponse _ _ _ _ _ = _ |- _ =>
             rewrite publishResponse_run in H;
             injection H as Hp Hr Hw Ht; rewrite <- Ht
         end; cbn [length]; lia.
  - intros st err (c' & p' & Hin) Hst.
    apply returned_in_log in Hin; [|reflexivity].
    destruct HS; loop_facts; read_steps_in Hin; pick_event Hin.
    all: try congruence.
    all: read_steps; now rewrite ?app_nil_r.
Qed.

(** ** The error encoders inside the handler *)

(** X11: with SingleNackRequeueErrorEncoder configured, a failure of any
    stage, the publish of the reply included, makes the error path issue
    exactly one Nack with multiple false and requeue true and then one
    sleep, for the backoff of the context current at the failure. *)
Theorem requeue_on_any_stage_failure
    (s : Sub) ch deliv w fallback st ctx pub err :
  errorEncoder s = SingleNackRequeueErrorEncoder fallback ->
  In (Returned st ctx pub (Some err)) (deliveryLog s ch deliv w) ->
  effectsAt LErrorEncoder (deliveryLog s ch deliv w)
  = [ENack (Delivery.DeliveryTag deliv) false true;
     ESleep (getNackSleepDuration fallback ctx)].
Proof.
  intros Hee Hin.
  destruct (ServeDelivery_steps s ch deliv w)
    as (c & e0 & tS & tF & HS & HF & Htr).
  rewrite Htr in *. clear Htr.
  apply returned_in_log in Hin; [|reflexivity].
  destruct HS; loop_facts; read_steps_in Hin; pick_event Hin.
  all: read_steps; rewrite ?app_nil_r, Hee; reflexivity.
Qed.

(** X12: with ReplyAndAckErrorEncoder configured, a failure of any stage
    makes the error path acknowledge the delivery exactly once, with
    multiple false. *)
Theorem ack_on_any_stage_failure
    (s : Sub) ch deliv w (json_Marshal : JSON -> bytes + error)
    st ctx pub err :
  errorEncoder s = ReplyAndAckErrorEncoder json_Marshal ->
  In (Returned st ctx pub (Some err)) (deliveryLog s ch deliv w) ->
  filter isAck (effectsAt LErrorEncoder (deliveryLog s ch deliv w))
  = [EAck (Delivery.DeliveryTag deliv) false].
Proof.
  intros Hee Hin.
  destruct (ServeDelivery_steps s ch deliv w)
    as (c & e0 & tS & tF & HS & HF & Htr).
  rewrite Htr in *. clear Htr.
  apply returned_in_log in Hin; [|reflexivity].
  destruct HS; loop_facts; read_steps_in Hin; pick_event Hin.
  all: read_steps; rewrite ?app_nil_r, Hee.
  all: rewrite ReplyAndAckErrorEncoder_run, ReplyErrorEncoder_run.
  all: destruct (json_Marshal _); reflexivity.
Qed.

Lemma withCorrelationId_idem deliv pub :
  withCorrelationId deliv (withCorrelationId deliv pub)
  = withCorrelationId deliv pub.
Proof.
  unfold withCorrelationId.
  destruct (Publishing.CorrelationId pub =? EmptyString) eqn:Hp;
    [|now rewrite Hp].
  cbn [Publishing.CorrelationId Publishing.setCorrelationId].
  destruct (Delivery.CorrelationId deliv =? EmptyString) eqn:Hd;
    [|reflexivity].
  apply String.eqb_eq in Hd. now rewrite Hd.
Qed.

(** X13: with ReplyErrorEncoder configured, when the publish of the reply
    fails and the error payload marshals to [b], the broker sees two
    Publish calls to the same exchange and key: the reply, which returned
    the error, and then the same message with body [b]. *)
Theorem failed_reply_is_followed_by_error_reply
    (s : Sub) ch deliv w (json_Marshal : JSON -> bytes + error)
    ctx pub err b :
  errorEncoder s = ReplyErrorEncoder json_Marshal ->
  In (Returned SPublish ctx pub (Some err)) (deliveryLog s ch deliv w) ->
  json_Marshal (JObject (MCons "err" (JString (err_Error err)) MNil))
  = inl b ->
  exists res,
    effectsAt LPublish (deliveryLog s ch deliv w)
    = [EPublish (getPublishExchange ctx) (replyKey ctx deliv) false false
                pub (Some err)] /\
    effectsAt LErrorEncoder (deliveryLog s ch deliv w)
    = [EPublish (getPublishExchange ctx) (replyKey ctx deliv) false false
                (Publishing.setBody b pub) res].
Proof.
  intros Hee Hin Hm.
  destruct (ServeDelivery_steps s ch deliv w)
    as (c & e0 & tS & tF & HS & HF & Htr).
  rewrite Htr in *. clear Htr.
  apply returned_in_log in Hin; [|reflexivity].
  destruct HS; loop_facts; read_steps_in Hin; pick_event Hin.
  match goal with
  | H : publishResponse _ _ _ _ _ = _ |- _ =>
      rewrite publishResponse_run in H; injection H as Hp Hr Hw Ht
  end.
  subst pub. eexists. split.
  - read_steps. rewrite ?app_nil_r, <- Ht, Hr. reflexivity.
  - read_steps. rewrite ?app_nil_r, Hee, ReplyErrorEncoder_run, Hm.
    cbn [trace snd]. rewrite withCorrelationId_idem. reflexivity.
Qed.

(** ** The encoders of responses inside the handler *)

(** X14: with EncodeNopResponse as encoder the encode stage never fails
    and leaves the publication as the after hooks left it. *)
Theorem nop_encoder_never_fails (s : Sub) ch deliv w ctx pub r :
  enc s = EncodeNopResponse ->
  In (Returned SEncode ctx pub r) (deliveryLog s ch deliv w) ->
  r = None /\
  effectsAt LEncode (deliveryLog s ch deliv w) = [] /\
  exists response, In (Encode ctx pub response) (deliveryLog s ch deliv w).
Proof.
  intros Henc Hin.
  destruct (ServeDelivery_steps s ch deliv w)
    as (c & e0 & tS & tF & HS & HF & Htr).
  rewrite Htr in *. clear Htr.
  apply returned_in_log in Hin; [|reflexivity].
  destruct HS; loop_facts; read_steps_in Hin; pick_event Hin.
  all: match goal with
       | H : enc _ _ _ _ _ = _ |- _ =>
           rewrite Henc in H; unfold EncodeNopResponse, ret in H;
           first [discriminate H | injection H as Hp Hw Ht]
       end.
  all: subst; split; [reflexivity|].
  all: split; [read_steps; now rewrite ?app_nil_r|].
  all: eexists; in_this_log.
Qed.

(** X15: with EncodeJSONResponse as encoder, the encode stage makes no
    broker call; when the response marshals to [b] it succeeds and changes
    the body of the publication to [b] and nothing else; when marshalling
    fails it fails with the error of the marshaller and leaves the
    publication as the after hooks left it. *)
Theorem json_encoder_sets_body_or_fails
    (s : Sub) ch deliv w (json_Marshal : Response -> bytes + error)
    ctx pub r :
  enc s = EncodeJSONResponse json_Marshal ->
  In (Returned SEncode ctx pub r) (deliveryLog s ch deliv w) ->
  effectsAt LEncode (deliveryLog s ch deliv w) = [] /\
  exists pubA response,
    In (Encode ctx pubA response) (deliveryLog s ch deliv w) /\
    match json_Marshal response with
    | inl b => pub = Publishing.setBody b pubA /\ r = None
    | inr err => pub = pubA /\ r = Some err
    end.
Proof.
  intros Henc Hin.
  destruct (ServeDelivery_steps s ch deliv w)
    as (c & e0 & tS & tF & HS & HF & Htr).
  rewrite Htr in *. clear Htr.
  apply returned_in_log in Hin; [|reflexivity].
  destruct HS; loop_facts; read_steps_in Hin; pick_event Hin.
  all: match goal with
       | H : enc _ _ _ _ _ = _ |- _ =>
           rewrite Henc in H; unfold EncodeJSONResponse, ret in H;
           rename H into HE
       end.
  all: destruct (json_Marshal response) as [b|e1] eqn:Hm;
    first [discriminate HE | (injection HE; intros)].
  all: subst.
  all: split; [read_steps; now rewrite ?app_nil_r|].
  all: match goal with
       | |- context [Encode _ ?p ?r :: _] => exists p, r
       end; split; [in_this_log|].
  all: rewrite Hm; split; reflexivity.
Qed.

(** ** publishResponse and ReplyErrorEncoder on their own *)

(** X16: publishing the publication a first publishResponse left, for the
    same delivery, leaves it as it is, whatever the context, channel and
    world of the second call. *)
Theorem publishResponse_settles_the_publication
    ctx ctx' deliv (ch ch' : Channel W) pub w w' :
  fst (value (publishResponse ctx' deliv ch'
                (fst (value (publishResponse ctx deliv ch pub w))) w'))
  = fst (value (publishResponse ctx deliv ch pub w)).
Proof.
  rewrite !publishResponse_run. cbn [value fst].
  apply withCorrelationId_idem.
Qed.


(** X18: ReplyErrorEncoder changes at most the correlation identifier and
    the body of the publication; the correlation identifier it leaves is
    the one of the publication, or the one of the delivery when the
    publication had none. *)
Theorem ReplyErrorEncoder_frame
    (json_Marshal : JSON -> bytes + error)
    ctx err deliv (ch : Channel W) pub w :
  let pub' := value (ReplyErrorEncoder json_Marshal
                       ctx err deliv ch pub w) in
  Publishing.Headers pub' = Publishing.Headers pub /\
  Publishing.ContentType pub' = Publishing.ContentType pub /\
  Publishing.ContentEncoding pub' = Publishing.ContentEncoding pub /\
  Publishing.DeliveryMode pub' = Publishing.DeliveryMode pub /\
  Publishing.Priority pub' = Publishing.Priority pub /\
  Publishing.ReplyTo pub' = Publishing.ReplyTo pub /\
  Publishing.Expiration pub' = Publishing.Expiration pub /\
  Publishing.MessageId pub' = Publishing.MessageId pub /\
  Publishing.Timestamp pub' = Publishing.Timestamp pub /\
  Publishing.Type_ pub' = Publishing.Type_ pub /\
  Publishing.UserId pub' = Publishing.UserId pub /\
  Publishing.AppId pub' = Publishing.AppId pub /\
  Publishing.CorrelationId pub'
  = Publishing.CorrelationId (withCorrelationId deliv pub).
Proof.
  rewrite ReplyErrorEncoder_run. unfold withCorrelationId.
  destruct (json_Marshal _);
    destruct (Publishing.CorrelationId pub =? EmptyString);
    cbn; repeat split.
Qed.

(** ** Finalizers and the error encoder *)



End Properties.

(** * The properties at work *)



Lemma publishResponse_empty_override_example :
  exists exchange key msg res,
    trace (publishResponse Example.emptyKey Example.deliv Example.chan
                           Publishing.zero [])
    = [EPublish exchange key false false msg res] /\
    exchange = EmptyString /\
    key = "q1" /\
    Publishing.CorrelationId msg = "abc".
Proof.
  destruct (publishResponse_resolves_reply_target _
              Example.emptyKey Example.deliv Example.chan Publishing.zero [])
    as (exchange & key & msg & res & Htr & _ & Hid & _ & Hex & _ & Hkey & _).
  exists exchange, key, msg, res.
  split; [exact Htr|]. split; [exact Hex|].
  split; [exact (Hkey eq_refl)|].
  rewrite (Hid eq_refl). reflexivity.
Defined.

(** C3, with the key worded as "the override if set, else the delivery's
    reply-to field", fails: a reply-key override that is set, to the empty
    string, is not the routing key; the message goes to the delivery's
    reply-to queue [q1]. *)
Lemma publishResponse_ignores_empty_key_override :
  ~ (forall (ctx : Context) (deliv : Delivery.t)
            (ch : Channel Example.World) (pub : Publishing.t)
            (w : Example.World),
       exists msg res,
         trace (publishResponse ctx deliv ch pub w)
         = [EPublish (spec_replyExchange ctx) (spec_replyKey ctx deliv)
                     false false msg res]).
Proof.
  intros H.
  destruct (H Example.emptyKey Example.deliv Example.chan Publishing.zero [])
    as (msg & res & Heq).
  vm_compute in Heq. discriminate Heq.
Qed.


Lemma failed_publish_example :
  In (Eff LPublish
          (EPublish EmptyString "replies" false false Example.reply
                    (Some (errorString "channel closed"))))
     (deliveryLog Example.sub Example.closed Example.deliv []) /\
  errorEncoder Example.sub = DefaultErrorEncoder /\
  (exists st err,
     stageFailed st err
       (deliveryLog Example.sub Example.closed Example.deliv [])) /\
  LPublish <> LErrorEncoder.
Proof.
  assert (H : In (Eff LPublish
                      (EPublish EmptyString "replies" false false
                                Example.reply
                                (Some (errorString "channel closed"))))
                 (deliveryLog Example.sub Example.closed Example.deliv []))
    by (vm_compute; repeat first [left; reflexivity | right]).
  assert (Hfail : exists st err,
             stageFailed st err
               (deliveryLog Example.sub Example.closed Example.deliv [])).
  { exists SPublish, (errorString "channel closed"),
           Example.hooked, Example.reply.
    vm_compute; repeat first [left; reflexivity | right]. }
  split; [exact H|]. split; [reflexivity|]. split; [exact Hfail|].
  destruct (handler_never_acknowledges _ _ _
              Example.sub Example.closed Example.deliv [] _ _ H)
    as (_ & _ & Hdefault).
  exact (proj1 (Hdefault eq_refl Hfail)).
Defined.

Lemma reply_error_example :
  Example.marshal
    (JObject (MCons "err" (JString (err_Error (errorString "boom"))) MNil))
  = inl Example.errBoom /\
  ReplyErrorEncoder Example.marshal Background (errorString "boom")
                    Example.deliv Example.chan Publishing.zero []
  = spec_replyWithError Example.errBoom Background Example.deliv
                        Example.chan Publishing.zero [].
Proof.
  assert (H : Example.marshal
                (JObject (MCons "err"
                                (JString (err_Error (errorString "boom")))
                                MNil))
              = inl Example.errBoom) by reflexivity.
  split; [exact H|].
  exact (proj1 (ReplyErrorEncoder_replies_like_success_path _
                  Example.marshal Background (errorString "boom")
                  Example.deliv Example.chan Publishing.zero [] _ H)).
Defined.

Lemma reply_and_ack_example :
  Example.marshal
    (JObject (MCons "err" (JString (err_Error (errorString "boom"))) MNil))
  = inl Example.errBoom /\
  exists exchange key msg res,
    trace (ReplyAndAckErrorEncoder Example.marshal Background
             (errorString "boom") Example.deliv Example.chan
             Publishing.zero [])
    = [EPublish exchange key false false msg res; EAck 7 false] /\
    Publishing.Body msg = Example.errBoom.
Proof.
  assert (H : Example.marshal
                (JObject (MCons "err"
                                (JString (err_Error (errorString "boom")))
                                MNil))
              = inl Example.errBoom) by reflexivity.
  split; [exact H|].
  exact (ReplyAndAck_publishes_once_then_acks_once _
           Example.marshal Background (errorString "boom")
           Example.deliv Example.chan Publishing.zero [] _ H).
Defined.

Lemma backoff_50ms_example :
  trace (SingleNackRequeueErrorEncoder 0 Example.backoff50ms
           (errorString "boom") Example.deliv Example.chan Publishing.zero [])
  = [ENack 7 false true; ESleep 50000000].
Proof.
  exact (proj1 (SingleNackRequeue_nacks_then_sleeps _
                  0%Z Example.backoff50ms (errorString "boom")
                  Example.deliv Example.chan Publishing.zero [])).
Defined.

Lemma set_correlation_id_example :
  Publishing.CorrelationId Example.tagged <> EmptyString /\
  fst (value (publishResponse Background Example.deliv Example.chan
                              Example.tagged []))
  = Example.tagged.
Proof.
  assert (H : Publishing.CorrelationId Example.tagged <> EmptyString)
    by discriminate.
  split; [exact H|].
  exact (proj1 (publishResponse_keeps_correlation_id _
                  Background Example.deliv Example.chan Example.tagged [] H)).
Defined.

Lemma ack_without_reply_example :
  Example.marshalFails
    (JObject (MCons "err" (JString (err_Error (errorString "boom"))) MNil))
  = inr (errorString "json: unsupported value") /\
  trace (ReplyAndAckErrorEncoder Example.marshalFails Background
           (errorString "boom") Example.deliv Example.chan Publishing.zero [])
  = [EAck 7 false].
Proof.
  assert (H : Example.marshalFails
                (JObject (MCons "err"
                                (JString (err_Error (errorString "boom")))
                                MNil))
              = inr (errorString "json: unsupported value")) by reflexivity.
  split; [exact H|].
  destruct (ReplyAndAck_acks_whatever_the_reply_did _
              Example.marshalFails Background (errorString "boom")
              Example.deliv Example.chan Publishing.zero [])
    as (_ & _ & Hfails & _).
  exact (Hfails _ H).
Defined.

(** * More properties at work *)

Ltac in_computed_log := vm_compute; repeat first [left; reflexivity | right].





Lemma no_publish_after_decode_failure_example :
  stageFailed SDecode (errorString "empty body")
    (deliveryLog Example.sub Example.chan Example.emptyDeliv []) /\
  effectsAt LPublish
    (deliveryLog Example.sub Example.chan Example.emptyDeliv []) = [].
Proof.
  assert (H : stageFailed SDecode (errorString "empty body")
                (deliveryLog Example.sub Example.chan Example.emptyDeliv [])).
  { exists Example.hooked, Publishing.zero. in_computed_log. }
  split; [exact H|].
  refine (proj2 (own_publish_at_most_once _ _ _
                   Example.sub Example.chan Example.emptyDeliv [])
                _ _ H _).
  discriminate.
Defined.

Lemma requeue_example :
  errorEncoder More.subRequeue = SingleNackRequeueErrorEncoder 0 /\
  In (Returned SDecode Example.backoff50ms Publishing.zero
               (Some (errorString "empty body")))
     (deliveryLog More.subRequeue Example.chan Example.emptyDeliv []) /\
  effectsAt LErrorEncoder
    (deliveryLog More.subRequeue Example.chan Example.emptyDeliv [])
  = [ENack 8 false true; ESleep 50000000].
Proof.
  assert (H : In (Returned SDecode Example.backoff50ms Publishing.zero
                           (Some (errorString "empty body")))
                 (deliveryLog More.subRequeue Example.chan
                              Example.emptyDeliv []))
    by in_computed_log.
  split; [reflexivity|]. split; [exact H|].
  exact (requeue_on_any_stage_failure _ _ _
           More.subRequeue Example.chan Example.emptyDeliv [] 0%Z
           _ _ _ _ eq_refl H).
Defined.

Lemma ack_example :
  errorEncoder More.subReplyAck = ReplyAndAckErrorEncoder Example.marshal /\
  In (Returned SInvoke Background Publishing.zero
               (Some (errorString "endpoint failed")))
     (deliveryLog More.subReplyAck Example.chan Example.boomDeliv []) /\
  filter isAck
    (effectsAt LErrorEncoder
       (deliveryLog More.subReplyAck Example.chan Example.boomDeliv []))
  = [EAck 9 false].
Proof.
  assert (H : In (Returned SInvoke Background Publishing.zero
                           (Some (errorString "endpoint failed")))
                 (deliveryLog More.subReplyAck Example.chan
                              Example.boomDeliv []))
    by in_computed_log.
  split; [reflexivity|]. split; [exact H|].
  exact (ack_on_any_stage_failure _ _ _
           More.subReplyAck Example.chan Example.boomDeliv []
           Example.marshal _ _ _ _ eq_refl H).
Defined.

Lemma two_publishes_example :
  errorEncoder More.subReply = ReplyErrorEncoder Example.marshal /\
  In (Returned SPublish Background More.plainReply
               (Some (errorString "channel closed")))
     (deliveryLog More.subReply Example.closed Example.deliv []) /\
  Example.marshal
    (JObject (MCons "err"
                    (JString (err_Error (errorString "channel closed")))
                    MNil))
  = inl More.errClosed /\
  exists res,
    effectsAt LPublish
      (deliveryLog More.subReply Example.closed Example.deliv [])
    = [EPublish EmptyString "q1" false false More.plainReply
                (Some (errorString "channel closed"))] /\
    effectsAt LErrorEncoder
      (deliveryLog More.subReply Example.closed Example.deliv [])
    = [EPublish EmptyString "q1" false false
                (Publishing.setBody More.errClosed More.plainReply) res].
Proof.
  assert (H : In (Returned SPublish Background More.plainReply
                           (Some (errorString "channel closed")))
                 (deliveryLog More.subReply Example.closed Example.deliv []))
    by in_computed_log.
  assert (Hm : Example.marshal
                 (JObject (MCons "err"
                            (JString (err_Error
                                        (errorString "channel closed")))
                            MNil))
               = inl More.errClosed) by reflexivity.
  split; [reflexivity|]. split; [exact H|]. split; [exact Hm|].
  exact (failed_reply_is_followed_by_error_reply _ _ _
           More.subReply Example.closed Example.deliv []
           Example.marshal _ _ _ _ eq_refl H Hm).
Defined.

Lemma nop_encoder_example :
  enc More.subNop = EncodeNopResponse /\
  In (Returned SEncode Background Publishing.zero None)
     (deliveryLog More.subNop Example.chan Example.deliv []) /\
  effectsAt LEncode (deliveryLog More.subNop Example.chan Example.deliv [])
  = [].
Proof.
  assert (H : In (Returned SEncode Background Publishing.zero None)
                 (deliveryLog More.subNop Example.chan Example.deliv []))
    by in_computed_log.
  split; [reflexivity|]. split; [exact H|].
  exact (proj1 (proj2 (nop_encoder_never_fails _ _ _
                         More.subNop Example.chan Example.deliv []
                         _ _ _ eq_refl H))).
Defined.

Lemma json_encoder_example :
  enc More.subJSON = EncodeJSONResponse More.marshalText /\
  In (Returned SEncode Background
               (Publishing.setBody (Example.quote "{y:2}") Publishing.zero)
               None)
     (deliveryLog More.subJSON Example.chan Example.deliv []) /\
  effectsAt LEncode (deliveryLog More.subJSON Example.chan Example.deliv [])
  = [].
Proof.
  assert (H : In (Returned SEncode Background
                           (Publishing.setBody (Example.quote "{y:2}")
                                               Publishing.zero)
                           None)
                 (deliveryLog More.subJSON Example.chan Example.deliv []))
    by in_computed_log.
  split; [reflexivity|]. split; [exact H|].
  exact (proj1 (json_encoder_sets_body_or_fails _ _ _
                  More.subJSON Example.chan Example.deliv []
                  More.marshalText _ _ _ eq_refl H)).
Defined.


